(** * pyfile_summariser: outline of a Python module

    A shallow embedding of [src/pyfile_summariser/cli.py] and the
    properties of its outline transformation, body-range collection,
    comment filter and final text assembly.

    The Python standard library pieces the program calls ([ast.parse],
    [tokenize.generate_tokens], [ast.fix_missing_locations], [ast.unparse],
    [Path.read_text]) are not part of the program: they are Section
    variables of the driver.  Everything the program itself does is
    defined here and computes. *)

From Stdlib Require Import ZArith String Ascii List Lia Bool.
From stdpp Require Import base list gmap.
From Equations Require Import Equations.
Import ListNotations.
Local Open Scope string_scope.
Local Open Scope list_scope.
Local Open Scope Z_scope.
Set Warnings "-register-all".

(** ** Exceptions

    Python code fails by raising.  A computation that may raise returns
    [res A]; [Raise] aborts everything that follows, as an uncaught
    exception does (the program has no [try]). *)

Inductive exn : Type :=
| SyntaxError
| TokenError
| IndexError
| AttributeError
| OSError.

Inductive res (A : Type) : Type :=
| Ok (a : A)
| Raise (e : exn).
Arguments Ok {A} a.
Arguments Raise {A} e.

#[global] Instance res_ret : MRet res := @Ok.
#[global] Instance res_bind : MBind res := fun A B f m =>
  match m with
  | Ok a => f a
  | Raise e => Raise e
  end.

(** [l[i]]: raises [IndexError] out of range. *)
Definition getitem {A} (l : list A) (i : nat) : res A :=
  match l !! i with
  | Some x => Ok x
  | None => Raise IndexError
  end.

(** Truth value of a list ([if node.body], [if comments]). *)
Definition truthy {A} (l : list A) : bool :=
  match l with
  | [] => false
  | _ :: _ => true
  end.

(** ** Syntax trees

    The part of Python's [ast] the program looks at.  Expressions are kept
    apart only as far as [is_docstring] inspects them; statements keep
    their nested statements, because [ast.walk] reaches function
    definitions at any depth.  Of the position attributes only [lineno]
    and [end_lineno] are ever read; either may be absent (a node built by
    hand has none, and [end_lineno] is missing from old parsers). *)

Inductive constant : Type :=
| CNone
| CBool (b : bool)
| CInt (n : Z)
| CFloat (repr : string)
| CComplex (repr : string)
| CStr (s : string)
| CBytes (s : string)
| CEllipsis.

Inductive expr : Type :=
| Constant (value : constant) (kind : option string)
| OtherExpr (dump : string).

Record arg : Type := mk_arg {
  arg_name : string;
  annotation : option expr
}.

Record arguments : Type := mk_arguments {
  posonlyargs : list arg;
  args : list arg;
  vararg : option arg;
  kwonlyargs : list arg;
  kw_defaults : list (option expr);
  kwarg : option arg;
  defaults : list expr
}.

Record position : Type := mk_position {
  lineno : option Z;
  end_lineno : option Z
}.

(** Everything of a function definition but its body and position. *)
Record signature : Type := mk_signature {
  name : string;
  params : arguments;
  decorator_list : list expr;
  returns : option expr;
  type_comment : option string
}.

(** Everything of a class definition but its body and position. *)
Record class_head : Type := mk_class_head {
  class_name : string;
  bases : list expr;
  keywords : list (option string * expr);
  class_decorator_list : list expr
}.

(** [OtherStmt] is any statement that is neither a definition nor an
    expression statement ([Import], [Assign], [If], [For], [Try], ...):
    [kind] is its class name, [fields] its non-statement fields and
    [blocks] the statements nested in it, in field order. *)
Inductive stmt : Type :=
| FunctionDef (sig : signature) (body : list stmt) (pos : position)
| AsyncFunctionDef (sig : signature) (body : list stmt) (pos : position)
| ClassDef (head : class_head) (body : list stmt) (pos : position)
| Expr (value : expr) (pos : position)
| OtherStmt (kind : string) (fields : string) (blocks : list stmt)
            (pos : position).

Record Module : Type := mk_Module {
  mod_body : list stmt;
  type_ignores : list (Z * string)
}.

Definition stmt_pos (n : stmt) : position :=
  match n with
  | FunctionDef _ _ p | AsyncFunctionDef _ _ p | ClassDef _ _ p
  | Expr _ p | OtherStmt _ _ _ p => p
  end.

(** [node.body] of a definition node. *)
Definition node_body (n : stmt) : list stmt :=
  match n with
  | FunctionDef _ body _ | AsyncFunctionDef _ body _ | ClassDef _ body _ =>
      body
  | Expr _ _ | OtherStmt _ _ _ _ => []
  end.

(** [isinstance(n, (ast.FunctionDef, ast.AsyncFunctionDef))] *)
Definition is_function (n : stmt) : bool :=
  match n with
  | FunctionDef _ _ _ | AsyncFunctionDef _ _ _ => true
  | _ => false
  end.

(** [isinstance(n, (ast.ClassDef, ast.FunctionDef, ast.AsyncFunctionDef))] *)
Definition is_definition (n : stmt) : bool :=
  match n with
  | FunctionDef _ _ _ | AsyncFunctionDef _ _ _ | ClassDef _ _ _ => true
  | _ => false
  end.

(** ** helpers *)

(** [is_docstring]: a standalone string literal.  The three [isinstance]
    tests are the three patterns. *)
Definition is_docstring (node : stmt) : bool :=
  match node with
  | Expr (Constant (CStr _) _) _ => true
  | _ => false
  end.

(** ** AST transformer *)

(** [ast.Expr(value=ast.Constant(value="(implementation not shown)",
    kind=None))]: a node built by hand, so without position. *)
Definition placeholder : stmt :=
  Expr (Constant (CStr "(implementation not shown)") None)
       (mk_position None None).

(** The first three lines of each visitor:
    [new_body = []; if node.body and is_docstring(node.body[0]):
    new_body.append(node.body[0])].  [and] does not evaluate its right
    operand when the left one is falsy. *)
Definition keep_docstring (body : list stmt) : res (list stmt) :=
  let new_body := [] in
  is_doc ← (if truthy body
            then b0 ← getitem body 0%nat; Ok (is_docstring b0)
            else Ok false);
  if is_doc : bool
  then b0 ← getitem body 0%nat; Ok (new_body ++ [b0])
  else Ok new_body.

(** [for child in node.body: if isinstance(child, ...):
    new_body.append(self.visit(child))] *)
Fixpoint visit_children (self_visit : stmt -> res stmt)
    (wanted : stmt -> bool) (children : list stmt) : res (list stmt) :=
  match children with
  | [] => Ok []
  | child :: rest =>
      if wanted child
      then child' ← self_visit child;
           rest' ← visit_children self_visit wanted rest;
           Ok (child' :: rest')
      else visit_children self_visit wanted rest
  end.

(** [_strip_fn]: bound as [visit_FunctionDef] and [visit_AsyncFunctionDef]
    and so only ever called on a function node; every field but [body] is
    left as it is.  The last case is never reached. *)
Definition _strip_fn (node : stmt) : res stmt :=
  match node with
  | FunctionDef sig body pos =>
      new_body ← keep_docstring body;
      Ok (FunctionDef sig (new_body ++ [placeholder]) pos)
  | AsyncFunctionDef sig body pos =>
      new_body ← keep_docstring body;
      Ok (AsyncFunctionDef sig (new_body ++ [placeholder]) pos)
  | _ => Raise AttributeError
  end.

(** [visit_ClassDef]: [self_visit] is [self.visit]; only ever called on a
    class node, so the last case is never reached. *)
Definition visit_ClassDef (self_visit : stmt -> res stmt) (node : stmt)
    : res stmt :=
  match node with
  | ClassDef head body pos =>
      new_body ← keep_docstring body;
      methods ← visit_children self_visit is_function body;
      Ok (ClassDef head (new_body ++ methods) pos)
  | _ => Raise AttributeError
  end.

(** [ast.NodeVisitor.visit]: dispatch on the class of the node.  A class
    without a visitor of its own gets [generic_visit], which visits the
    children and keeps the node. *)
Fixpoint visit (node : stmt) : res stmt :=
  match node with
  | FunctionDef _ _ _ => _strip_fn node
  | AsyncFunctionDef _ _ _ => _strip_fn node
  | ClassDef _ _ _ => visit_ClassDef visit node
  | Expr _ _ => Ok node
  | OtherStmt kind fields blocks pos =>
      blocks' ← visit_children visit (fun _ => true) blocks;
      Ok (OtherStmt kind fields blocks' pos)
  end.

Definition visit_Module (node : Module) : res Module :=
  new_body ← keep_docstring (mod_body node);
  defs ← visit_children visit is_definition (mod_body node);
  Ok (mk_Module (new_body ++ defs) (type_ignores node)).

(** ** Walking the tree *)

(** [ast.iter_child_nodes], as far as statements go: the child nodes
    that are expressions hold no statement and are left out.  A statement
    under an except handler or a match case counts as a child of the
    statement that has the handler or case; this moves it forward in the
    walk and leaves what the walk yields, which is all the program uses,
    as it is. *)
Definition iter_child_nodes (n : stmt) : list stmt :=
  match n with
  | FunctionDef _ body _ => body
  | AsyncFunctionDef _ body _ => body
  | ClassDef _ body _ => body
  | Expr _ _ => []
  | OtherStmt _ _ blocks _ => blocks
  end.

Fixpoint stmt_size (n : stmt) : nat :=
  match n with
  | FunctionDef _ body _ => S (list_sum (map stmt_size body))
  | AsyncFunctionDef _ body _ => S (list_sum (map stmt_size body))
  | ClassDef _ body _ => S (list_sum (map stmt_size body))
  | Expr _ _ => 1
  | OtherStmt _ _ blocks _ => S (list_sum (map stmt_size blocks))
  end.

Definition forest_size (l : list stmt) : nat := list_sum (map stmt_size l).

(** [ast.walk]: [todo = deque([node]); while todo: node = todo.popleft();
    todo.extend(iter_child_nodes(node)); yield node], breadth first. *)
Equations? walk (todo : list stmt) : list stmt
    by wf (forest_size todo) lt :=
  walk [] := [];
  walk (node :: todo) := node :: walk (todo ++ iter_child_nodes node).
Proof.
  unfold forest_size. rewrite map_app, list_sum_app.
  destruct node; simpl; lia.
Qed.

(** The statements [ast.walk(tree)] yields for a module; the module node
    itself comes first and is no statement. *)
Definition walk_Module (tree : Module) : list stmt := walk (mod_body tree).

(** ** Body ranges *)

(** [n.lineno]: [AttributeError] when the node has none.  [None] is the
    attribute that is not there, as on a node built without it; a
    [lineno] set to [None] by hand, which Python would hand back without
    an error, is not modelled, and no parsed tree has one. *)
Definition get_lineno (n : stmt) : res Z :=
  match lineno (stmt_pos n) with
  | Some l => Ok l
  | None => Raise AttributeError
  end.

(** One turn of the loop of [collect_body_ranges]: the range appended
    for [n], or [None] when nothing is appended. *)
Definition body_range (n : stmt) : res (option (Z * Z)) :=
  if is_function n then
    match end_lineno (stmt_pos n) with
    | None => Ok None
    | Some e =>
        let body := node_body n in
        start ← (if truthy body
                 then b0 ← getitem body 0%nat; get_lineno b0
                 else l ← get_lineno n; Ok (l + 1));
        Ok (Some (start, e))
    end
  else Ok None.

Fixpoint collect_loop (nodes : list stmt) (ranges : list (Z * Z))
    : res (list (Z * Z)) :=
  match nodes with
  | [] => Ok ranges
  | n :: rest =>
      r ← body_range n;
      match r with
      | Some range => collect_loop rest (ranges ++ [range])
      | None => collect_loop rest ranges
      end
  end.

Definition collect_body_ranges (tree : Module) : res (list (Z * Z)) :=
  collect_loop (walk_Module tree) [].

(** ** Comments *)

Inductive token_type : Type :=
| ENDMARKER | NAME | NUMBER | STRING | NEWLINE | INDENT | DEDENT | OP
| COMMENT | NL | OTHER_TOKEN (code : Z).

(** [tokenize.TokenInfo]; [tok_start] is (row, column), rows from 1 and
    columns from 0, and [tok_line] the physical line of the token. *)
Record TokenInfo : Type := mk_TokenInfo {
  tok_type : token_type;
  tok_string : string;
  tok_start : Z * Z;
  tok_end : Z * Z;
  tok_line : string
}.

Definition is_COMMENT (t : token_type) : bool :=
  match t with
  | COMMENT => true
  | _ => false
  end.

Definition newline : ascii := "010"%char.

(** [s.rstrip("\n")]: every trailing newline goes. *)
Fixpoint rstrip_newline (s : string) : string :=
  match s with
  | EmptyString => EmptyString
  | String c rest =>
      match rstrip_newline rest with
      | EmptyString => if Ascii.eqb c newline then EmptyString
                       else String c EmptyString
      | rest' => String c rest'
      end
  end.

(** [range(a, b)] *)
Definition range (a b : Z) : list Z := seqZ a (b - a).

(** [body_lines = set(); for s, e in body_ranges:
    body_lines.update(range(s, e + 1))] *)
Fixpoint update_body_lines (body_lines : gset Z)
    (body_ranges : list (Z * Z)) : gset Z :=
  match body_ranges with
  | [] => body_lines
  | (s, e) :: rest =>
      update_body_lines (body_lines ∪ list_to_set (range s (e + 1))) rest
  end.

Fixpoint scan_tokens (body_lines : gset Z) (tokens : list TokenInfo)
    (keep : list string) : list string :=
  match tokens with
  | [] => keep
  | tok :: rest =>
      if is_COMMENT (tok_type tok)
      then
        let line_no := fst (tok_start tok) in
        if bool_decide (line_no ∉ body_lines)
           && bool_decide (snd (tok_start tok) = 0)
        then scan_tokens body_lines rest
               (keep ++ [rstrip_newline (tok_line tok)])
        else scan_tokens body_lines rest keep
      else scan_tokens body_lines rest keep
  end.

(** [sep.join(l)] *)
Fixpoint join (sep : string) (l : list string) : string :=
  match l with
  | [] => EmptyString
  | [x] => x
  | x :: rest => String.append x (String.append sep (join sep rest))
  end.

(** ** main driver *)

Section Driver.

(** [Path.read_text(encoding="utf-8")] *)
Variable read_text : string -> res string.
(** [ast.parse(source, type_comments=True)] *)
Variable parse : string -> res Module.
(** [tokenize.generate_tokens(io.StringIO(src).readline)], run to its
    end; a tokenizer error anywhere aborts the loop that consumes it. *)
Variable generate_tokens : string -> res (list TokenInfo).
(** [ast.fix_missing_locations] *)
Variable fix_missing_locations : Module -> Module.
(** [ast.unparse] *)
Variable unparse : Module -> string.

Definition get_toplevel_comments (src : string)
    (body_ranges : list (Z * Z)) : res (list string) :=
  let body_lines := update_body_lines ∅ body_ranges in
  tokens ← generate_tokens src;
  Ok (scan_tokens body_lines tokens []).

(** The body of [summarise] once the file is read. *)
Definition summarise_source (source : string) : res string :=
  tree ← parse source;
  body_ranges ← collect_body_ranges tree;
  tree ← visit_Module tree;
  let tree := fix_missing_locations tree in
  comments ← get_toplevel_comments source body_ranges;
  let pieces := [] in
  let pieces :=
    if truthy comments
    then pieces ++ [join (String newline EmptyString) comments]
    else pieces in
  let pieces := pieces ++ [unparse tree] in
  Ok (join (String newline (String newline EmptyString)) pieces).

Definition summarise (path : string) : res string :=
  source ← read_text path;
  summarise_source source.

End Driver.

(** ** The outline in the words of the specification

    These definitions follow the rewrite rules as the specification
    words them; the theorems below compare them with the visitors. *)

(** "[original docstring if the first statement is a docstring]" *)
Definition docstring_part (body : list stmt) : list stmt :=
  match body with
  | first :: _ => if is_docstring first then [first] else []
  | [] => []
  end.

(** The signature of a function node. *)
Definition fn_signature (n : stmt) : option signature :=
  match n with
  | FunctionDef sig _ _ | AsyncFunctionDef sig _ _ => Some sig
  | _ => None
  end.

Definition is_class (n : stmt) : bool :=
  match n with
  | ClassDef _ _ _ => true
  | _ => false
  end.

(** The node with another body, every other field as it was. *)
Definition with_body (n : stmt) (body : list stmt) : stmt :=
  match n with
  | FunctionDef sig _ pos => FunctionDef sig body pos
  | AsyncFunctionDef sig _ pos => AsyncFunctionDef sig body pos
  | ClassDef head _ pos => ClassDef head body pos
  | Expr _ _ | OtherStmt _ _ _ _ => n
  end.

(** A statement of the tree: one of the given statements or, at any
    depth, a statement nested in one of them. *)
Inductive occurs (n : stmt) : list stmt -> Prop :=
| occurs_here l : In n l -> occurs n l
| occurs_below p l : In p l -> occurs n (iter_child_nodes p) -> occurs n l.

(** Nothing but expression statements: no function among them or below. *)
Definition leaf_expr (n : stmt) : Prop :=
  is_function n = false /\ is_class n = false /\ iter_child_nodes n = [].

(** "new body = [original docstring if the first statement is a
    docstring] + [one Placeholder Marker statement]" *)
Definition spec_function (n : stmt) : stmt :=
  with_body n (docstring_part (node_body n) ++ [placeholder]).

(** "new child list = [class docstring if first statement is a docstring]
    + [recursively transformed child for every nested function/method
    definition, in original order]" *)
Definition spec_class (n : stmt) : stmt :=
  with_body n
    (docstring_part (node_body n)
     ++ map spec_function (List.filter is_function (node_body n))).

Definition spec_definition (n : stmt) : stmt :=
  if is_function n then spec_function n else spec_class n.

(** "new child list = [module docstring if the first statement is a
    docstring] + [recursively transformed child for every top-level class
    or function/method definition, in original order]" *)
Definition spec_module (tree : Module) : Module :=
  mk_Module
    (docstring_part (mod_body tree)
     ++ map spec_definition (List.filter is_definition (mod_body tree)))
    (type_ignores tree).

(** The functions the outline retains: the top-level ones and those
    directly in a top-level class. *)
Definition retained (tree : Module) (f : stmt) : Prop :=
  is_function f = true /\
  (In f (mod_body tree) \/
   exists c, In c (mod_body tree) /\ is_class c = true /\
             In f (node_body c)).

(** The first statement of the node's body is a docstring. *)
Definition has_docstring (n : stmt) : bool :=
  truthy (docstring_part (node_body n)).

(** ** Body ranges and kept comments in the words of the specification *)

(** "the line of its first body statement (or, if the body is empty, one
    line past the signature)" *)
Definition spec_body_start (n : stmt) : option Z :=
  match node_body n with
  | first :: _ => lineno (stmt_pos first)
  | [] => (fun l => l + 1) <$> lineno (stmt_pos n)
  end.

(** The range of a function node whose end position is known. *)
Definition spec_body_range (n : stmt) : option (Z * Z) :=
  if is_function n then
    match end_lineno (stmt_pos n), spec_body_start n with
    | Some e, Some s => Some (s, e)
    | _, _ => None
    end
  else None.

(** Membership of a line in an inclusive range. *)
Definition in_range (line : Z) (r : Z * Z) : bool :=
  (fst r <=? line) && (line <=? snd r).

(** "the comment token begins at column 0 and its line number is not a
    member of the union of all Body Ranges" *)
Definition kept_comment (body_ranges : list (Z * Z)) (tok : TokenInfo)
    : bool :=
  is_COMMENT (tok_type tok)
  && (snd (tok_start tok) =? 0)
  && negb (existsb (in_range (fst (tok_start tok))) body_ranges).

(** "kept Comment Lines (joined by single newlines, as one block) followed
    by a blank-line separator, followed by the rendered code, omitting
    the comment block entirely if no comments were kept" *)
Definition spec_output (comments : list string) (code : string) : string :=
  match comments with
  | [] => code
  | _ :: _ =>
      String.append (join (String newline EmptyString) comments)
        (String newline (String newline code))
  end.

(** A run of [k] newlines. *)
Fixpoint newlines (k : nat) : string :=
  match k with
  | O => EmptyString
  | S k' => String newline (newlines k')
  end.

Fixpoint ends_with_newline (s : string) : bool :=
  match s with
  | EmptyString => false
  | String c EmptyString => Ascii.eqb c newline
  | String _ rest => ends_with_newline rest
  end.

(** ** Sample trees *)

Definition at_lines (first last : Z) : position :=
  mk_position (Some first) (Some last).

Definition no_arguments : arguments := mk_arguments [] [] None [] [] None [].

Definition def_sig (name : string) (params : arguments) : signature :=
  mk_signature name params [] None None.

Definition Pass (line : Z) : stmt := OtherStmt "Pass" "" [] (at_lines line line).

(** [def f(): pass] *)
Definition one_liner_fn : stmt :=
  FunctionDef (def_sig "f" no_arguments) [Pass 1] (at_lines 1 1).

Definition one_liner : Module := mk_Module [one_liner_fn] [].

(** The tree of the text rendered from the outline of [one_liner]:
    [def f():] on line 1 and the placeholder string on line 2. *)
Definition one_liner_reparsed_fn : stmt :=
  FunctionDef (def_sig "f" no_arguments)
    [Expr (Constant (CStr "(implementation not shown)") None)
          (at_lines 2 2)]
    (at_lines 1 2).

Definition one_liner_reparsed : Module := mk_Module [one_liner_reparsed_fn] [].

(** [def f(x):] on line 1, [return x] on line 2. *)
Definition two_line_fn : stmt :=
  FunctionDef (def_sig "f" no_arguments)
    [OtherStmt "Return" "x" [] (at_lines 2 2)] (at_lines 1 2).

Definition two_line_module : Module := mk_Module [two_line_fn] [].

(** A six-line source: a comment, [def f(x):], two body statements with
    a column-0 comment between them, and a comment after the function. *)
Definition nl : string := String newline EmptyString.

Definition sample_source : string :=
  String.concat nl
    ["# note"; "def f(x):"; "    y = x"; "# hidden"; "    return y";
     "# tail"; ""].

Definition sample_fn : stmt :=
  FunctionDef
    (def_sig "f" (mk_arguments [] [mk_arg "x" None] None [] [] None []))
    [OtherStmt "Assign" "y = x" [] (at_lines 3 3);
     OtherStmt "Return" "y" [] (at_lines 5 5)]
    (at_lines 2 5).

Definition sample_tree : Module := mk_Module [sample_fn] [].

Definition comment_token (text : string) (row col : Z) (line : string)
    : TokenInfo :=
  mk_TokenInfo COMMENT text (row, col)
    (row, col + Z.of_nat (String.length text)) line.

(** The comment tokens of [sample_source] and the tokens between them
    that matter to nobody here are left out but for one [NAME]. *)
Definition sample_tokens : list TokenInfo :=
  [comment_token "# note" 1 0 (String.append "# note" nl);
   mk_TokenInfo NAME "def" (2, 0) (2, 3) (String.append "def f(x):" nl);
   comment_token "# hidden" 4 0 (String.append "# hidden" nl);
   comment_token "# tail" 6 0 (String.append "# tail" nl)].

Definition sample_read_text (path : string) : res string :=
  Ok sample_source.
Definition sample_parse (source : string) : res Module := Ok sample_tree.
Definition sample_generate_tokens (source : string)
    : res (list TokenInfo) := Ok sample_tokens.
Definition sample_fix_missing_locations (tree : Module) : Module := tree.
Definition sample_unparse (tree : Module) : string := "<rendered code>".

(** [class A:] holding [class B:] holding [def m(self, x): pass]. *)
Definition inner_method : stmt :=
  FunctionDef
    (def_sig "m"
       (mk_arguments [] [mk_arg "self" None; mk_arg "x" None] None [] []
                     None []))
    [Pass 3] (at_lines 3 3).

Definition inner_class : stmt :=
  ClassDef (mk_class_head "B" [] [] []) [inner_method] (at_lines 2 3).

Definition nested_class_module : Module :=
  mk_Module
    [ClassDef (mk_class_head "A" [] [] []) [inner_class] (at_lines 1 3)] [].

(** A string literal as an expression statement. *)
Definition docstring (text : string) (line : Z) : stmt :=
  Expr (Constant (CStr text) None) (at_lines line line).

(** A module docstring, a documented function and a class with a
    documented method and an attribute. *)
Definition documented_module : Module :=
  mk_Module
    [docstring "Module doc." 1;
     FunctionDef (def_sig "f" no_arguments)
       [docstring "Doc of f." 3; Pass 4] (at_lines 2 4);
     ClassDef (mk_class_head "C" [] [] [])
       [OtherStmt "Assign" "x = 1" [] (at_lines 6 6);
        AsyncFunctionDef (def_sig "g" no_arguments)
          [docstring "Doc of g." 8; Pass 9] (at_lines 7 9)]
       (at_lines 5 9)]
    [].

(** [documented_module] with an import and an assignment added. *)
Definition documented_module_with_more : Module :=
  mk_Module
    (mod_body documented_module
     ++ [OtherStmt "Import" "os" [] (at_lines 10 10);
         OtherStmt "Assign" "LIMIT = 3" [] (at_lines 11 11)])
    [].




(** ** What an outline is made of *)

(** What a definition node says of itself, body apart. *)
Inductive head : Type :=
| FunctionHead (sig : signature)
| AsyncFunctionHead (sig : signature)
| ClassHead (h : class_head).

Definition definition_head (n : stmt) : option (head * position) :=
  match n with
  | FunctionDef sig _ pos => Some (FunctionHead sig, pos)
  | AsyncFunctionDef sig _ pos => Some (AsyncFunctionHead sig, pos)
  | ClassDef h _ pos => Some (ClassHead h, pos)
  | Expr _ _ | OtherStmt _ _ _ _ => None
  end.

(** A function node whose end line is known and whose body start is not:
    the first body statement, or the node itself when the body is empty,
    has no line number. *)
Definition startless (n : stmt) : Prop :=
  is_function n = true /\
  end_lineno (stmt_pos n) <> None /\
  spec_body_start n = None.

(** A line covered by one of the ranges. *)
Definition covered (body_ranges : list (Z * Z)) (line : Z) : bool :=
  existsb (in_range line) body_ranges.

(** [def f(): pass] as a parser without end positions gives it, the body
    statement without any position. *)
Definition legacy_fn : stmt :=
  FunctionDef (def_sig "f" no_arguments)
    [OtherStmt "Pass" "" [] (mk_position None None)]
    (mk_position (Some 1) None).

Definition legacy_module : Module := mk_Module [legacy_fn] [].

(** ** Induction on statements through their nested lists *)

Section StmtInd.
Variable P : stmt -> Prop.
Hypothesis HFunctionDef : forall sig body pos,
  Forall P body -> P (FunctionDef sig body pos).
Hypothesis HAsyncFunctionDef : forall sig body pos,
  Forall P body -> P (AsyncFunctionDef sig body pos).
Hypothesis HClassDef : forall head body pos,
  Forall P body -> P (ClassDef head body pos).
Hypothesis HExpr : forall value pos, P (Expr value pos).
Hypothesis HOtherStmt : forall kind fields blocks pos,
  Forall P blocks -> P (OtherStmt kind fields blocks pos).

Fixpoint stmt_nested_ind (n : stmt) : P n :=
  let all := fix all (l : list stmt) : Forall P l :=
    match l with
    | [] => @List.Forall_nil stmt P
    | x :: r => @List.Forall_cons stmt P x r (stmt_nested_ind x) (all r)
    end in
  match n with
  | FunctionDef sig body pos => HFunctionDef sig body pos (all body)
  | AsyncFunctionDef sig body pos => HAsyncFunctionDef sig body pos (all body)
  | ClassDef head body pos => HClassDef head body pos (all body)
  | Expr value pos => HExpr value pos
  | OtherStmt kind fields blocks pos =>
      HOtherStmt kind fields blocks pos (all blocks)
  end.
End StmtInd.

(** ** The exception monad *)

Lemma bind_Ok_inv {A B} (f : A -> res B) (m : res A) (b : B) :
  (m ≫= f) = Ok b -> exists a, m = Ok a /\ f a = Ok b.
Proof. destruct m as [a|e]; simpl; [eauto | discriminate]. Qed.

(** ** The visitors *)

Lemma keep_docstring_spec body :
  keep_docstring body = Ok (docstring_part body).
Proof.
  unfold keep_docstring, docstring_part.
  destruct body as [|first rest]; simpl; [reflexivity|].
  destruct (is_docstring first); reflexivity.
Qed.

Lemma visit_children_spec self_visit wanted children :
  Forall (fun c => wanted c = true -> exists c', self_visit c = Ok c')
         children ->
  exists out,
    visit_children self_visit wanted children = Ok out /\
    Forall2 (fun c c' => self_visit c = Ok c')
            (List.filter wanted children) out.
Proof.
  induction 1 as [|c cs Hc _ IH]; simpl.
  - exists []. split; [reflexivity | constructor].
  - destruct IH as (out & -> & Hout).
    destruct (wanted c) eqn:Hw.
    + destruct (Hc eq_refl) as [c' Hc']. rewrite Hc'. simpl.
      exists (c' :: out). split; [reflexivity | constructor; assumption].
    + exists out. split; [reflexivity | assumption].
Qed.

Lemma strip_fn_spec node :
  is_function node = true ->
  _strip_fn node
  = Ok (with_body node (docstring_part (node_body node) ++ [placeholder])).
Proof.
  destruct node; simpl; try discriminate; intros _;
    rewrite keep_docstring_spec; reflexivity.
Qed.

Lemma visit_function node :
  is_function node = true -> visit node = _strip_fn node.
Proof. destruct node; simpl; try discriminate; reflexivity. Qed.

Lemma visit_total node : exists node', visit node = Ok node'.
Proof.
  induction node as [sig body pos _|sig body pos _|head body pos IH
                    |value pos|kind fields blocks pos IH]
    using stmt_nested_ind.
  - rewrite visit_function, strip_fn_spec by reflexivity. eauto.
  - rewrite visit_function, strip_fn_spec by reflexivity. eauto.
  - simpl. rewrite keep_docstring_spec. simpl.
    destruct (visit_children_spec visit is_function body) as (out & -> & _).
    + eapply Forall_impl; [exact IH | auto].
    + simpl. eauto.
  - simpl. eauto.
  - simpl.
    destruct (visit_children_spec visit (fun _ => true) blocks)
      as (out & -> & _).
    + eapply Forall_impl; [exact IH | auto].
    + simpl. eauto.
Qed.

(** ** Statements of a tree and [walk] *)

Lemma occurs_nil n : ~ occurs n [].
Proof.
  intros H. remember [] as l eqn:El.
  destruct H as [l Hin|p l Hin _]; subst l; destruct Hin.
Qed.

Lemma occurs_app n l1 l2 :
  occurs n (l1 ++ l2) <-> occurs n l1 \/ occurs n l2.
Proof.
  split.
  - intros H. remember (l1 ++ l2) as l eqn:El.
    destruct H as [l Hin|p l Hin Hbelow]; subst l;
      apply in_app_or in Hin as [Hin|Hin];
      eauto using occurs_here, occurs_below.
  - intros [H|H]; destruct H as [l Hin|p l Hin Hbelow];
      eauto using occurs_here, occurs_below, in_or_app.
Qed.

Lemma occurs_cons n p l :
  occurs n (p :: l) <-> n = p \/ occurs n (iter_child_nodes p) \/ occurs n l.
Proof.
  split.
  - intros H. remember (p :: l) as l' eqn:El.
    destruct H as [l' Hin|q l' Hin Hbelow]; subst l';
      destruct Hin as [->|Hin];
      eauto using occurs_here, occurs_below.
  - intros [->|[H|H]].
    + apply occurs_here. left. reflexivity.
    + eapply occurs_below; [left; reflexivity | exact H].
    + destruct H as [l Hin|q l Hin Hbelow].
      * apply occurs_here. right. exact Hin.
      * eapply occurs_below; [right; exact Hin | exact Hbelow].
Qed.

Lemma occurs_child n p l :
  occurs p l -> In n (iter_child_nodes p) -> occurs n l.
Proof.
  intros Hp Hn. induction Hp as [l Hin|q l Hin _ IH].
  - eapply occurs_below; [exact Hin | apply occurs_here; exact Hn].
  - eapply occurs_below; [exact Hin | exact IH].
Qed.

(** [walk] yields exactly the statements of the tree. *)
Lemma walk_occurs n todo : In n (walk todo) <-> occurs n todo.
Proof.
  funelim (walk todo).
  - simp walk. split; [intros [] | intros H; destruct (occurs_nil _ H)].
  - simp walk. simpl. rewrite H, occurs_app, occurs_cons.
    split; [intros [->|[?|?]] | intros [->|[?|?]]]; auto.
Qed.

Lemma Forall2_in_r {A B} (R : A -> B -> Prop) l l' y :
  Forall2 R l l' -> In y l' -> exists x, In x l /\ R x y.
Proof.
  induction 1 as [|x y' l l' HR _ IH]; intros Hin;
    [destruct Hin | destruct Hin as [->|Hin]].
  - exists x. split; [left; reflexivity | exact HR].
  - destruct (IH Hin) as (x' & Hx' & HR'). exists x'. split; [right|]; auto.
Qed.

Lemma visit_children_filter self_visit wanted children :
  visit_children self_visit wanted children
  = visit_children self_visit (fun _ => true) (List.filter wanted children).
Proof.
  induction children as [|c cs IH]; simpl; [reflexivity|].
  destruct (wanted c); simpl; rewrite IH; reflexivity.
Qed.

Lemma visit_ClassDef_spec head body pos :
  exists methods,
    visit_ClassDef visit (ClassDef head body pos)
    = Ok (ClassDef head (docstring_part body ++ methods) pos) /\
    Forall2 (fun c c' => visit c = Ok c')
            (List.filter is_function body) methods.
Proof.
  simpl. rewrite keep_docstring_spec. simpl.
  destruct (visit_children_spec visit is_function body) as (out & -> & Hout).
  - apply Forall_forall. intros c _ _. apply visit_total.
  - simpl. eauto.
Qed.

Lemma visit_Module_spec node :
  exists defs,
    visit_Module node
    = Ok (mk_Module (docstring_part (mod_body node) ++ defs)
                    (type_ignores node)) /\
    Forall2 (fun c c' => visit c = Ok c')
            (List.filter is_definition (mod_body node)) defs.
Proof.
  unfold visit_Module. rewrite keep_docstring_spec. simpl.
  destruct (visit_children_spec visit is_definition (mod_body node))
    as (out & -> & Hout).
  - apply Forall_forall. intros c _ _. apply visit_total.
  - simpl. eauto.
Qed.

Lemma leaf_expr_docstring n : is_docstring n = true -> leaf_expr n.
Proof.
  destruct n; simpl; try discriminate. intros _. repeat split.
Qed.

Lemma leaf_expr_stripped body :
  Forall leaf_expr (docstring_part body ++ [placeholder]).
Proof.
  apply Forall_app. split.
  - destruct body as [|first rest]; simpl; [constructor|].
    destruct (is_docstring first) eqn:Hd; repeat constructor.
    all: apply leaf_expr_docstring in Hd; apply Hd.
  - repeat constructor.
Qed.

Lemma leaf_expr_docstring_part body : Forall leaf_expr (docstring_part body).
Proof.
  pose proof (leaf_expr_stripped body) as H.
  apply Forall_app in H. apply H.
Qed.

Lemma occurs_leaves n l : Forall leaf_expr l -> occurs n l -> leaf_expr n.
Proof.
  intros Hl Ho. induction Ho as [l Hin|p l Hin Hbelow IH].
  - rewrite Forall_forall in Hl. apply Hl. apply list_elem_of_In. exact Hin.
  - rewrite Forall_forall in Hl.
    apply list_elem_of_In, Hl in Hin. destruct Hin as (_ & _ & Hc).
    rewrite Hc in Hbelow. destruct (occurs_nil _ Hbelow).
Qed.

(** A function among or below transformed methods is one of them. *)
Lemma occurs_methods g body methods :
  Forall2 (fun c c' => visit c = Ok c') (List.filter is_function body)
          methods ->
  occurs g methods -> is_function g = true ->
  exists f, In f body /\ is_function f = true /\ visit f = Ok g.
Proof.
  intros HF Ho Hg.
  assert (Hin : forall m', In m' methods ->
            exists m, In m body /\ is_function m = true /\ visit m = Ok m').
  { intros m' Hm'. destruct (Forall2_in_r _ _ _ _ HF Hm') as (m & Hm & Hv).
    apply filter_In in Hm as [Hm Hfn]. eauto. }
  destruct Ho as [l Hg'|p l Hp Hbelow].
  - apply Hin. exact Hg'.
  - destruct (Hin p Hp) as (m & _ & Hfn & Hv).
    rewrite visit_function, strip_fn_spec in Hv by exact Hfn.
    injection Hv as <-.
    assert (Hleaf : leaf_expr g).
    { eapply occurs_leaves; [|exact Hbelow].
      destruct m; try discriminate; simpl; apply leaf_expr_stripped. }
    destruct Hleaf as (Hnf & _). congruence.
Qed.

(** ** The rewrite rules *)

(** C1. The transformed body of a function or method, plain or async, is
    the original first statement when that is a docstring, followed by
    exactly one placeholder whose value is "(implementation not shown)";
    nothing else of the node changes and nothing else of the body stays.
    This holds for every function of the transformed module, at whatever
    depth it occurs there: each is the transform of a function of the
    input. *)
Theorem strip_fn_body :
  (forall node, is_function node = true ->
     exists node',
       _strip_fn node = Ok node' /\ visit node = Ok node' /\
       node_body node'
       = docstring_part (node_body node) ++ [placeholder] /\
       node' = with_body node (node_body node')) /\
  (forall tree tree' g,
     visit_Module tree = Ok tree' ->
     occurs g (mod_body tree') -> is_function g = true ->
     exists f,
       occurs f (mod_body tree) /\ is_function f = true /\
       _strip_fn f = Ok g /\
       node_body g = docstring_part (node_body f) ++ [placeholder]).
Proof.
  assert (Hfn : forall node, is_function node = true ->
            exists node',
              _strip_fn node = Ok node' /\ visit node = Ok node' /\
              node_body node'
              = docstring_part (node_body node) ++ [placeholder] /\
              node' = with_body node (node_body node')).
  { intros node Hnode. eexists. rewrite visit_function by exact Hnode.
    split; [apply strip_fn_spec; exact Hnode|].
    split; [apply strip_fn_spec; exact Hnode|].
    destruct node; try discriminate; split; reflexivity. }
  split; [exact Hfn|].
  intros tree tree' g Hv Ho Hg.
  assert (Hback : forall f, is_function f = true -> visit f = Ok g ->
            _strip_fn f = Ok g /\
            node_body g = docstring_part (node_body f) ++ [placeholder]).
  { intros f Hf Hvf. destruct (Hfn f Hf) as (g' & Hs & Hv' & Hb & _).
    rewrite Hv' in Hvf. injection Hvf as <-. auto. }
  destruct (visit_Module_spec tree) as (defs & Hm & HF).
  rewrite Hm in Hv. injection Hv as <-. simpl in Ho.
  apply occurs_app in Ho as [Ho|Ho].
  { apply (occurs_leaves _ _ (leaf_expr_docstring_part _)) in Ho.
    destruct Ho as (Hnf & _). congruence. }
  assert (Hin : forall d', In d' defs ->
            exists d, In d (mod_body tree) /\ is_definition d = true /\
                      visit d = Ok d').
  { intros d' Hd'. destruct (Forall2_in_r _ _ _ _ HF Hd') as (d & Hd & Hvd).
    apply filter_In in Hd as [Hd Hdef]. eauto. }
  destruct Ho as [l Hg'|p l Hp Hbelow].
  - destruct (Hin g Hg') as (f & Hf & Hdef & Hvf).
    assert (Hff : is_function f = true).
    { destruct f; try discriminate; try reflexivity.
      simpl in Hvf. rewrite keep_docstring_spec in Hvf. simpl in Hvf.
      apply bind_Ok_inv in Hvf as (ms & _ & Hvf). injection Hvf as <-.
      discriminate. }
    exists f. destruct (Hback f Hff Hvf).
    repeat split; auto. apply occurs_here. exact Hf.
  - destruct (Hin p Hp) as (d & Hd & Hdef & Hvd).
    destruct d as [sig body pos|sig body pos|head body pos| |];
      try discriminate.
    + rewrite visit_function, strip_fn_spec in Hvd by reflexivity.
      injection Hvd as <-. simpl in Hbelow.
      apply (occurs_leaves _ _ (leaf_expr_stripped _)) in Hbelow.
      destruct Hbelow as (Hnf & _). congruence.
    + rewrite visit_function, strip_fn_spec in Hvd by reflexivity.
      injection Hvd as <-. simpl in Hbelow.
      apply (occurs_leaves _ _ (leaf_expr_stripped _)) in Hbelow.
      destruct Hbelow as (Hnf & _). congruence.
    + destruct (visit_ClassDef_spec head body pos) as (ms & Hc & HFm).
      change (visit (ClassDef head body pos))
        with (visit_ClassDef visit (ClassDef head body pos)) in Hvd.
      rewrite Hc in Hvd. injection Hvd as <-. simpl in Hbelow.
      apply occurs_app in Hbelow as [Hbelow|Hbelow].
      { apply (occurs_leaves _ _ (leaf_expr_docstring_part _)) in Hbelow.
        destruct Hbelow as (Hnf & _). congruence. }
      destruct (occurs_methods _ _ _ HFm Hbelow Hg) as (f & Hf & Hff & Hvf).
      exists f. destruct (Hback f Hff Hvf).
      repeat split; auto.
      eapply occurs_below; [exact Hd | apply occurs_here; exact Hf].
Qed.

(** The theorem at [sample_fn], alone and as the function of
    [sample_tree]. *)
Lemma strip_fn_body_witness :
  visit sample_fn = Ok (with_body sample_fn [placeholder]) /\
  exists f,
    occurs f (mod_body sample_tree) /\
    _strip_fn f = Ok (with_body sample_fn [placeholder]).
Proof.
  destruct strip_fn_body as [Hnode Htree]. split.
  - destruct (Hnode sample_fn eq_refl) as (node' & _ & Hv & Hbody & Hrest).
    rewrite Hv, Hrest, Hbody. reflexivity.
  - destruct (Htree sample_tree
                (mk_Module [with_body sample_fn [placeholder]] [])
                (with_body sample_fn [placeholder]))
      as (f & Hf & _ & Hs & _).
    + reflexivity.
    + apply occurs_here. left. reflexivity.
    + reflexivity.
    + exists f. auto.
Defined.

(** C4. The transformed module's child list is the module docstring, when
    the first statement is a standalone string literal, followed by the
    transformed top-level class and function definitions, these and no
    others, in their original order.  Every other top-level statement is
    dropped: the transformed module, and so all that is rendered from it,
    is the same for any module with the same docstring and the same
    definitions. *)
Theorem visit_Module_body node :
  exists defs,
    visit_Module node
    = Ok (mk_Module (docstring_part (mod_body node) ++ defs)
                    (type_ignores node)) /\
    Forall2 (fun c c' => visit c = Ok c')
            (List.filter is_definition (mod_body node)) defs /\
    forall other,
      docstring_part (mod_body other) = docstring_part (mod_body node) ->
      List.filter is_definition (mod_body other)
      = List.filter is_definition (mod_body node) ->
      type_ignores other = type_ignores node ->
      visit_Module other = visit_Module node.
Proof.
  destruct (visit_Module_spec node) as (defs & Hm & HF).
  exists defs. split; [exact Hm|]. split; [exact HF|].
  intros other Hdoc Hdefs Hti. unfold visit_Module.
  rewrite !keep_docstring_spec, Hdoc, Hti.
  rewrite (visit_children_filter _ _ (mod_body other)), Hdefs.
  rewrite <- visit_children_filter. reflexivity.
Qed.

(** The theorem at [documented_module]: an import and an assignment
    more make no difference. *)
Lemma visit_Module_body_witness :
  visit_Module documented_module_with_more = visit_Module documented_module.
Proof.
  destruct (visit_Module_body documented_module) as (defs & _ & _ & Hsame).
  apply (Hsame documented_module_with_more); reflexivity.
Defined.

(** C5. The transformed class body is the class docstring, when the first
    statement is a standalone string literal, followed by the transformed
    function and method definitions directly in the class, these and no
    others, in their original order.  Class attributes and nested class
    definitions are dropped: no class is left in the new body. *)
Theorem visit_ClassDef_body head body pos :
  exists methods,
    visit_ClassDef visit (ClassDef head body pos)
    = Ok (ClassDef head (docstring_part body ++ methods) pos) /\
    visit (ClassDef head body pos)
    = Ok (ClassDef head (docstring_part body ++ methods) pos) /\
    Forall2 (fun c c' => visit c = Ok c')
            (List.filter is_function body) methods /\
    Forall (fun c => is_class c = false) (docstring_part body ++ methods).
Proof.
  destruct (visit_ClassDef_spec head body pos) as (ms & Hc & HF).
  exists ms. split; [exact Hc|]. split; [exact Hc|]. split; [exact HF|].
  apply Forall_app. split.
  - eapply Forall_impl; [apply leaf_expr_docstring_part|].
    intros c (_ & Hc' & _). exact Hc'.
  - apply Forall_forall. intros c' Hin. apply list_elem_of_In in Hin.
    destruct (Forall2_in_r _ _ _ _ HF Hin) as (c & Hcin & Hv).
    apply filter_In in Hcin as [_ Hfn].
    rewrite visit_function, strip_fn_spec in Hv by exact Hfn.
    injection Hv as <-. destruct c; try discriminate; reflexivity.
Qed.

(** C9. The outline transformation never raises: the transformer returns
    a tree for every module, and its dispatcher returns a node for every
    statement, whatever the nesting of classes and functions, with or
    without docstrings, with empty bodies or any other members. *)
Theorem Outline_total :
  (forall tree, exists tree', visit_Module tree = Ok tree') /\
  (forall node, exists node', visit node = Ok node').
Proof.
  split.
  - intros tree. destruct (visit_Module_spec tree) as (defs & Hm & _). eauto.
  - apply visit_total.
Qed.

(** ** Body ranges *)

Lemma body_range_spec n :
  lineno (stmt_pos n) <> None ->
  Forall (fun c => lineno (stmt_pos c) <> None) (node_body n) ->
  body_range n = Ok (spec_body_range n).
Proof.
  intros Hn Hc. unfold body_range, spec_body_range, spec_body_start.
  destruct (is_function n); [|reflexivity].
  destruct (end_lineno (stmt_pos n)) as [e|]; [|reflexivity].
  destruct (node_body n) as [|first rest]; simpl.
  - unfold get_lineno. destruct (lineno (stmt_pos n)); [reflexivity|].
    congruence.
  - apply Forall_cons in Hc as [Hfirst _]. unfold get_lineno.
    destruct (lineno (stmt_pos first)); [reflexivity | congruence].
Qed.

Lemma collect_loop_spec nodes ranges :
  Forall (fun n => body_range n = Ok (spec_body_range n)) nodes ->
  collect_loop nodes ranges = Ok (ranges ++ omap spec_body_range nodes).
Proof.
  intros H. revert ranges.
  induction H as [|n rest Hn _ IH]; intros ranges; simpl.
  - rewrite app_nil_r. reflexivity.
  - rewrite Hn. simpl. destruct (spec_body_range n) as [r|].
    + rewrite IH, <- app_assoc. reflexivity.
    + apply IH.
Qed.

(** Whatever the positions, a range the loop computes is in its result. *)
Lemma collect_loop_In nodes ranges out :
  collect_loop nodes ranges = Ok out ->
  (forall r, In r ranges -> In r out) /\
  (forall n r, In n nodes -> body_range n = Ok (Some r) -> In r out).
Proof.
  revert ranges. induction nodes as [|n rest IH]; intros ranges H; simpl in H.
  - injection H as <-. split; [auto | intros n r []].
  - apply bind_Ok_inv in H as (o & Ho & H).
    destruct o as [range|]; apply IH in H as [Hacc Hrest]; split.
    + intros r Hr. apply Hacc, in_or_app. left. exact Hr.
    + intros m r [<-|Hm] Hb.
      * rewrite Ho in Hb. injection Hb as <-.
        apply Hacc, in_or_app. right. left. reflexivity.
      * eapply Hrest; eauto.
    + exact Hacc.
    + intros m r [<-|Hm] Hb.
      * rewrite Ho in Hb. discriminate.
      * eapply Hrest; eauto.
Qed.

Lemma node_body_children n c : In c (node_body n) -> In c (iter_child_nodes n).
Proof. destruct n; simpl; tauto. Qed.

Lemma in_range_iff line s e : in_range line (s, e) = true <-> s <= line <= e.
Proof. unfold in_range. simpl. lia. Qed.

(** C6, as the code has it.  In a tree whose statements all carry a line
    number, as every parsed tree does, the collector returns one inclusive
    range per function node whose end line is known, in walk order: its
    start is the line of the first body statement, or one line past the
    signature when the body is empty, and its end is the node's end
    line.  The signature line is outside the range whenever the body
    starts on a later line than the signature, as an empty body's notional
    start does. *)
Theorem collect_body_ranges_spec tree :
  (forall n, occurs n (mod_body tree) -> lineno (stmt_pos n) <> None) ->
  exists ranges,
    collect_body_ranges tree = Ok ranges /\
    ranges = omap spec_body_range (walk_Module tree) /\
    forall n e,
      occurs n (mod_body tree) -> is_function n = true ->
      end_lineno (stmt_pos n) = Some e ->
      exists s l,
        lineno (stmt_pos n) = Some l /\
        spec_body_start n = Some s /\
        body_range n = Ok (Some (s, e)) /\
        In (s, e) ranges /\
        (node_body n = [] -> s = l + 1) /\
        (l < s -> in_range l (s, e) = false).
Proof.
  intros Hloc.
  assert (Hbr : forall n, occurs n (mod_body tree) ->
            body_range n = Ok (spec_body_range n)).
  { intros n Hn. apply body_range_spec; [auto|].
    apply Forall_forall. intros c Hc. apply list_elem_of_In in Hc.
    apply Hloc. eapply occurs_child; [exact Hn|].
    apply node_body_children. exact Hc. }
  exists (omap spec_body_range (walk_Module tree)).
  assert (Hcollect : collect_body_ranges tree
                     = Ok (omap spec_body_range (walk_Module tree))).
  { unfold collect_body_ranges. rewrite collect_loop_spec; [reflexivity|].
    apply Forall_forall. intros n Hn. apply Hbr.
    apply walk_occurs, list_elem_of_In. exact Hn. }
  split; [exact Hcollect|]. split; [reflexivity|].
  intros n e Hn Hfn He.
  pose proof (Hbr n Hn) as Hb.
  assert (Hstart : exists s l, lineno (stmt_pos n) = Some l /\
                     spec_body_start n = Some s /\
                     (node_body n = [] -> s = l + 1)).
  { destruct (lineno (stmt_pos n)) as [l|] eqn:Hl;
      [|destruct (Hloc n Hn Hl)].
    unfold spec_body_start. rewrite Hl.
    destruct (node_body n) as [|first rest] eqn:Hbody.
    - exists (l + 1), l. auto.
    - destruct (lineno (stmt_pos first)) as [s|] eqn:Hs.
      + exists s, l. repeat split. discriminate.
      + exfalso. apply (Hloc first); [|exact Hs].
        eapply occurs_child; [exact Hn|].
        apply node_body_children. rewrite Hbody. left. reflexivity. }
  destruct Hstart as (s & l & Hl & Hs & Hempty).
  assert (Hr : spec_body_range n = Some (s, e)).
  { unfold spec_body_range. rewrite Hfn, He, Hs. reflexivity. }
  rewrite Hr in Hb.
  exists s, l. repeat split; auto.
  - unfold collect_body_ranges in Hcollect.
    apply collect_loop_In in Hcollect as [_ Hin].
    apply (Hin n); [|exact Hb]. apply walk_occurs. exact Hn.
  - intros Hlt. unfold in_range. simpl. lia.
Qed.

(** The theorem at [two_line_module]: the range is line 2 alone and the
    signature line 1 is outside. *)
Lemma collect_body_ranges_spec_witness :
  (forall n, occurs n (mod_body two_line_module) ->
     lineno (stmt_pos n) <> None) /\
  collect_body_ranges two_line_module = Ok [(2, 2)] /\
  in_range 1 (2, 2) = false.
Proof.
  assert (Hloc : forall n, occurs n (mod_body two_line_module) ->
            lineno (stmt_pos n) <> None).
  { intros n Hn. apply walk_occurs in Hn. vm_compute in Hn.
    destruct Hn as [<-|[<-|[]]]; discriminate. }
  split; [exact Hloc|].
  destruct (collect_body_ranges_spec two_line_module Hloc)
    as (ranges & Hc & Hr & Hfn).
  split; [rewrite Hc, Hr; reflexivity|].
  destruct (Hfn two_line_fn 2) as (s & l & Hl & Hs & _ & _ & _ & Hout).
  - apply occurs_here. left. reflexivity.
  - reflexivity.
  - reflexivity.
  - injection Hl as <-. injection Hs as <-. apply Hout. lia.
Defined.

(** C6 as stated fails for a function written on one line: the body of
    [def f(): pass] starts on the signature line, so that line is in the
    range collected for it. *)
Lemma one_liner_signature_in_range :
  collect_body_ranges one_liner = Ok [(1, 1)] /\
  body_range one_liner_fn = Ok (Some (1, 1)) /\
  lineno (stmt_pos one_liner_fn) = Some 1 /\
  in_range 1 (1, 1) = true.
Proof. repeat split. Qed.

(** ** Kept comments *)

Lemma rstrip_newline_spec s :
  ends_with_newline (rstrip_newline s) = false /\
  exists k, s = String.append (rstrip_newline s) (newlines k).
Proof.
  induction s as [|c rest [Hend (k & Hk)]]; simpl.
  - split; [reflexivity | exists O; reflexivity].
  - destruct (rstrip_newline rest) as [|c' rest'] eqn:Hr.
    + simpl in Hk. subst rest.
      destruct (Ascii.eqb_spec c newline) as [->|Hne].
      * split; [reflexivity | exists (S k); reflexivity].
      * split; [simpl; apply Ascii.eqb_neq; exact Hne|].
        exists k. reflexivity.
    + split; [exact Hend|]. exists k. rewrite Hk at 1. reflexivity.
Qed.

Lemma elem_of_range x a b : x ∈ range a b <-> a <= x < b.
Proof. unfold range. rewrite elem_of_seqZ. lia. Qed.

Lemma elem_of_update_body_lines x body_lines body_ranges :
  x ∈ update_body_lines body_lines body_ranges
  <-> x ∈ body_lines \/ existsb (in_range x) body_ranges = true.
Proof.
  revert body_lines.
  induction body_ranges as [|[s e] rest IH]; intros body_lines; simpl.
  - split; [auto | intros [H|H]; [exact H | discriminate]].
  - rewrite IH, elem_of_union, elem_of_list_to_set, elem_of_range.
    rewrite orb_true_iff, in_range_iff. intuition lia.
Qed.

Lemma not_in_body_lines x body_ranges :
  bool_decide (x ∉ update_body_lines ∅ body_ranges)
  = negb (existsb (in_range x) body_ranges).
Proof.
  destruct (existsb (in_range x) body_ranges) eqn:Hex; simpl.
  - apply bool_decide_eq_false. intros Hnot. apply Hnot.
    apply elem_of_update_body_lines. right. exact Hex.
  - apply bool_decide_eq_true. intros Hin.
    apply elem_of_update_body_lines in Hin as [Hin|Hin].
    + set_solver.
    + congruence.
Qed.

Lemma scan_tokens_spec body_ranges tokens keep :
  scan_tokens (update_body_lines ∅ body_ranges) tokens keep
  = keep ++ map (fun tok => rstrip_newline (tok_line tok))
                (List.filter (kept_comment body_ranges) tokens).
Proof.
  revert keep. induction tokens as [|tok rest IH]; intros keep; simpl.
  - rewrite app_nil_r. reflexivity.
  - assert (Hk : kept_comment body_ranges tok
                 = is_COMMENT (tok_type tok)
                   && (bool_decide (fst (tok_start tok)
                                    ∉ update_body_lines ∅ body_ranges)
                       && bool_decide (snd (tok_start tok) = 0))).
    { unfold kept_comment. rewrite not_in_body_lines, <- andb_assoc.
      f_equal. rewrite andb_comm. f_equal.
      destruct (Z.eqb_spec (snd (tok_start tok)) 0);
        [rewrite bool_decide_eq_true_2 | rewrite bool_decide_eq_false_2];
        auto. }
    rewrite Hk.
    destruct (is_COMMENT (tok_type tok)); simpl; [|apply IH].
    destruct (_ && _); simpl; rewrite IH; [|reflexivity].
    rewrite <- app_assoc. reflexivity.
Qed.

Lemma kept_comment_iff body_ranges tok :
  kept_comment body_ranges tok = true
  <-> tok_type tok = COMMENT /\ snd (tok_start tok) = 0 /\
      forall s e, In (s, e) body_ranges ->
                  ~ (s <= fst (tok_start tok) <= e).
Proof.
  unfold kept_comment. rewrite !andb_true_iff, negb_true_iff, Z.eqb_eq.
  assert (Hc : is_COMMENT (tok_type tok) = true <-> tok_type tok = COMMENT).
  { destruct (tok_type tok); simpl; split; congruence. }
  assert (Hr : existsb (in_range (fst (tok_start tok))) body_ranges = false
               <-> forall s e, In (s, e) body_ranges ->
                               ~ (s <= fst (tok_start tok) <= e)).
  { split.
    - intros Hex s e Hin Hle.
      assert (existsb (in_range (fst (tok_start tok))) body_ranges = true);
        [|congruence].
      apply existsb_exists. exists (s, e).
      split; [exact Hin | apply in_range_iff; exact Hle].
    - intros Hall.
      destruct (existsb _ body_ranges) eqn:Hex; [|reflexivity].
      apply existsb_exists in Hex as ([s e] & Hin & Hle).
      apply in_range_iff in Hle. destruct (Hall s e Hin Hle). }
  rewrite Hc, Hr. tauto.
Qed.




(** ** The final text *)

(** C7. Whenever the stages succeed, the output is the kept comment lines
    joined by single newlines, a blank-line separator and the rendered
    code; with no kept comment it is the rendered code alone. *)
Theorem summarise_output
    read_text parse generate_tokens fix_missing_locations unparse
    path source tree body_ranges tree' comments :
  read_text path = Ok source ->
  parse source = Ok tree ->
  collect_body_ranges tree = Ok body_ranges ->
  visit_Module tree = Ok tree' ->
  get_toplevel_comments generate_tokens source body_ranges = Ok comments ->
  summarise read_text parse generate_tokens fix_missing_locations unparse
            path
  = Ok (spec_output comments (unparse (fix_missing_locations tree'))) /\
  (comments = [] ->
   summarise read_text parse generate_tokens fix_missing_locations unparse
             path
   = Ok (unparse (fix_missing_locations tree'))).
Proof.
  intros Hread Hparse Hranges Hvisit Hcomments.
  assert (H : summarise read_text parse generate_tokens
                fix_missing_locations unparse path
              = Ok (spec_output comments
                      (unparse (fix_missing_locations tree')))).
  { unfold summarise, summarise_source.
    rewrite Hread. simpl. rewrite Hparse. simpl. rewrite Hranges. simpl.
    rewrite Hvisit. simpl. rewrite Hcomments. simpl.
    destruct comments as [|c cs]; reflexivity. }
  split; [exact H|]. intros ->. exact H.
Qed.

Lemma summarise_output_witness :
  summarise sample_read_text sample_parse sample_generate_tokens
            sample_fix_missing_locations sample_unparse "module.py"
  = Ok (String.concat nl ["# note"; "# tail"; ""; "<rendered code>"]).
Proof.
  destruct (summarise_output sample_read_text sample_parse
              sample_generate_tokens sample_fix_missing_locations
              sample_unparse "module.py" sample_source sample_tree
              [(3, 5)]
              (mk_Module [with_body sample_fn [placeholder]] [])
              ["# note"; "# tail"]
              eq_refl eq_refl eq_refl eq_refl eq_refl) as (H & _).
  rewrite H. reflexivity.
Defined.

(** ** The visitors compute the outline of the specification *)

Lemma Forall2_map_eq {A B} (f : A -> res B) (g : A -> B) l out :
  Forall2 (fun c c' => f c = Ok c') l out ->
  (forall c, In c l -> f c = Ok (g c)) ->
  out = map g l.
Proof.
  induction 1 as [|c c' l out Hc _ IH]; intros Hg; simpl; [reflexivity|].
  rewrite (Hg c) in Hc by (left; reflexivity). injection Hc as <-.
  f_equal. apply IH. intros d Hd. apply Hg. right. exact Hd.
Qed.

Lemma visit_function_spec f :
  is_function f = true -> visit f = Ok (spec_function f).
Proof.
  intros Hf. rewrite visit_function, strip_fn_spec by exact Hf. reflexivity.
Qed.

Lemma visit_definition_spec d :
  is_definition d = true -> visit d = Ok (spec_definition d).
Proof.
  intros Hd. unfold spec_definition.
  destruct d as [sig body pos|sig body pos|head body pos| |];
    try discriminate.
  - apply visit_function_spec. reflexivity.
  - apply visit_function_spec. reflexivity.
  - destruct (visit_ClassDef_spec head body pos) as (ms & Hc & HF).
    change (visit (ClassDef head body pos))
      with (visit_ClassDef visit (ClassDef head body pos)).
    rewrite Hc. simpl. unfold spec_class. simpl. do 3 f_equal.
    eapply Forall2_map_eq; [exact HF|].
    intros c Hc'. apply filter_In in Hc' as [_ Hfn].
    apply visit_function_spec. exact Hfn.
Qed.

Lemma visit_Module_pure tree : visit_Module tree = Ok (spec_module tree).
Proof.
  destruct (visit_Module_spec tree) as (defs & Hm & HF).
  rewrite Hm. unfold spec_module. do 3 f_equal.
  eapply Forall2_map_eq; [exact HF|].
  intros c Hc. apply filter_In in Hc as [_ Hd].
  apply visit_definition_spec. exact Hd.
Qed.

(** ** A second pass *)

Lemma docstring_part_cases body :
  docstring_part body = [] \/
  exists first rest,
    body = first :: rest /\ is_docstring first = true /\
    docstring_part body = [first].
Proof.
  destruct body as [|first rest]; simpl; [left; reflexivity|].
  destruct (is_docstring first) eqn:Hd; [right | left; reflexivity].
  exists first, rest. auto.
Qed.

Lemma filter_all {A} (p : A -> bool) l :
  (forall x, In x l -> p x = true) -> List.filter p l = l.
Proof.
  induction l as [|x l IH]; intros H; simpl; [reflexivity|].
  rewrite (H x) by (left; reflexivity).
  f_equal. apply IH. intros y Hy. apply H. right. exact Hy.
Qed.

(** The children kept by a rule, seen by the same rule again: the
    docstring is the same and the definitions are the transformed ones. *)
Lemma kept_children_again (wanted : stmt -> bool) (g : stmt -> stmt) body :
  (forall c, is_docstring c = true -> wanted c = false) ->
  (forall c, wanted c = true ->
             wanted (g c) = true /\ is_docstring (g c) = false) ->
  let out := docstring_part body ++ map g (List.filter wanted body) in
  docstring_part out = docstring_part body /\
  List.filter wanted out = map g (List.filter wanted body).
Proof.
  intros Hdoc Hg out.
  assert (Hall : forall x, In x (map g (List.filter wanted body)) ->
            wanted x = true /\ is_docstring x = false).
  { intros x Hx. apply in_map_iff in Hx as (c & <- & Hc).
    apply filter_In in Hc as [_ Hc]. apply Hg. exact Hc. }
  assert (Hhead : docstring_part (map g (List.filter wanted body)) = []).
  { destruct (map g (List.filter wanted body)) as [|x l]; [reflexivity|].
    simpl. destruct (Hall x) as [_ ->]; [left|]; reflexivity. }
  subst out.
  destruct (docstring_part_cases body) as [->|(first & rest & _ & Hd & ->)];
    simpl.
  - split; [exact Hhead|]. apply filter_all. intros x Hx. apply Hall, Hx.
  - rewrite Hd, (Hdoc first Hd). split; [reflexivity|].
    apply filter_all. intros x Hx. apply Hall, Hx.
Qed.

Lemma spec_function_again f :
  is_function f = true -> has_docstring f = true ->
  spec_function (spec_function f) = spec_function f.
Proof.
  intros Hf Hd. unfold has_docstring in Hd.
  destruct f as [sig body pos|sig body pos| | |]; try discriminate;
    unfold spec_function; simpl in *;
    destruct (docstring_part_cases body)
      as [Hnil|(first & rest & _ & Hfirst & Hdoc)];
    try (rewrite Hnil in Hd; discriminate);
    rewrite Hdoc; simpl; rewrite Hfirst; reflexivity.
Qed.

Lemma is_docstring_not_definition c :
  is_docstring c = true -> is_definition c = false /\ is_function c = false.
Proof. destruct c; simpl; try discriminate; auto. Qed.

Lemma spec_class_again c :
  (forall f, In f (node_body c) -> is_function f = true ->
             has_docstring f = true) ->
  spec_class (spec_class c) = spec_class c.
Proof.
  intros Hdocs.
  destruct (kept_children_again is_function spec_function (node_body c))
    as [Hd Hf].
  { intros d Hd. apply is_docstring_not_definition, Hd. }
  { intros f Hf. destruct f; try discriminate; split; reflexivity. }
  assert (Hbody : node_body (spec_class c)
                  = docstring_part (node_body c)
                    ++ map spec_function
                         (List.filter is_function (node_body c))
                  \/ (node_body c = [] /\ spec_class c = c)).
  { destruct c; simpl; auto. }
  destruct Hbody as [Hbody|[Hnil Hsame]].
  - unfold spec_class at 1. rewrite Hbody. simpl in Hd, Hf. rewrite Hd, Hf.
    rewrite map_map.
    assert (Hmap : map (fun x => spec_function (spec_function x))
                       (List.filter is_function (node_body c))
                   = map spec_function
                       (List.filter is_function (node_body c))).
    { apply map_ext_in. intros f Hin. apply filter_In in Hin as [Hin Hfn].
      apply spec_function_again; auto. }
    rewrite Hmap. destruct c; reflexivity.
  - rewrite Hsame. exact Hsame.
Qed.

Lemma spec_definition_again tree d :
  (forall f, retained tree f -> has_docstring f = true) ->
  In d (mod_body tree) -> is_definition d = true ->
  spec_definition (spec_definition d) = spec_definition d.
Proof.
  intros Hdocs Hin Hd. unfold spec_definition.
  destruct (is_function d) eqn:Hfn.
  - assert (Hfn' : is_function (spec_function d) = true)
      by (destruct d; try discriminate; reflexivity).
    rewrite Hfn'.
    apply spec_function_again; [exact Hfn|].
    apply Hdocs. split; [exact Hfn | left; exact Hin].
  - assert (Hc : is_class d = true)
      by (destruct d; try discriminate; reflexivity).
    assert (Hfn' : is_function (spec_class d) = false)
      by (destruct d; try discriminate; reflexivity).
    rewrite Hfn'.
    apply spec_class_again. intros f Hf Hffn.
    apply Hdocs. split; [exact Hffn | right; eauto].
Qed.

(** C3, as the code has it.  On a tree whose retained functions and
    methods all start with a docstring, a second pass of the transformer
    returns the tree the first pass returned. *)
Theorem Outline_idempotent_documented tree once :
  (forall f, retained tree f -> has_docstring f = true) ->
  visit_Module tree = Ok once ->
  visit_Module once = Ok once.
Proof.
  intros Hdocs Hv. rewrite visit_Module_pure in Hv. injection Hv as <-.
  rewrite visit_Module_pure. f_equal.
  destruct (kept_children_again is_definition spec_definition
              (mod_body tree)) as [Hd Hf].
  { intros d Hd. apply is_docstring_not_definition, Hd. }
  { intros d Hd. unfold spec_definition.
    destruct d; try discriminate; split; reflexivity. }
  simpl in Hd, Hf. unfold spec_module at 1. simpl. rewrite Hd, Hf, map_map.
  unfold spec_module. f_equal. f_equal.
  apply map_ext_in. intros d Hin. apply filter_In in Hin as [Hin Hdef].
  eapply spec_definition_again; eauto.
Qed.

Lemma Outline_idempotent_documented_witness :
  (forall f, retained documented_module f -> has_docstring f = true) /\
  visit_Module documented_module = Ok (spec_module documented_module) /\
  visit_Module (spec_module documented_module)
  = Ok (spec_module documented_module).
Proof.
  assert (Hdocs : forall f, retained documented_module f ->
            has_docstring f = true).
  { intros f [Hfn [Hin|(c & Hc & Hclass & Hin)]].
    - simpl in Hin. destruct Hin as [<-|[<-|[<-|[]]]];
        try discriminate; reflexivity.
    - simpl in Hc. destruct Hc as [<-|[<-|[<-|[]]]]; try discriminate.
      simpl in Hin. destruct Hin as [<-|[<-|[]]];
        try discriminate; reflexivity. }
  split; [exact Hdocs|]. split; [reflexivity|].
  apply (Outline_idempotent_documented documented_module).
  - exact Hdocs.
  - reflexivity.
Defined.

(** C3 as stated fails on [def f(): pass].  The first pass leaves the
    placeholder alone in the body; rendered, it reads as a docstring, and
    the second pass, on the tree as it is or as parsed again from the
    rendered text, keeps it as one and adds a placeholder after it. *)
Lemma Outline_not_idempotent :
  visit_Module one_liner
  = Ok (mk_Module [with_body one_liner_fn [placeholder]] []) /\
  visit_Module (mk_Module [with_body one_liner_fn [placeholder]] [])
  = Ok (mk_Module [with_body one_liner_fn [placeholder; placeholder]] []) /\
  visit_Module one_liner_reparsed
  = Ok (mk_Module
          [with_body one_liner_reparsed_fn
             [Expr (Constant (CStr "(implementation not shown)") None)
                   (at_lines 2 2);
              placeholder]] []) /\
  (visit_Module one_liner ≫= visit_Module) <> visit_Module one_liner.
Proof. repeat split. discriminate. Qed.

(** ** Signatures *)

Lemma fn_signature_function f sig :
  fn_signature f = Some sig -> is_function f = true.
Proof. destruct f; simpl; try discriminate; reflexivity. Qed.

Lemma fn_signature_spec_function f :
  fn_signature (spec_function f) = fn_signature f.
Proof. destruct f; reflexivity. Qed.

(** C8, as the code has it.  A function directly in the module, and a
    function or method directly in a top-level class, is in the
    transformed tree, in its place, with its name, its parameter list and
    the rest of its signature unchanged; the output is rendered from that
    tree. *)
Theorem signature_preserved tree tree' f sig :
  visit_Module tree = Ok tree' ->
  fn_signature f = Some sig ->
  (In f (mod_body tree) ->
   exists f',
     In f' (mod_body tree') /\ visit f = Ok f' /\
     fn_signature f' = Some sig) /\
  (forall c,
     In c (mod_body tree) -> is_class c = true -> In f (node_body c) ->
     exists c' f',
       In c' (mod_body tree') /\ visit c = Ok c' /\
       In f' (node_body c') /\ visit f = Ok f' /\
       fn_signature f' = Some sig).
Proof.
  intros Hv Hsig. rewrite visit_Module_pure in Hv. injection Hv as <-.
  pose proof (fn_signature_function _ _ Hsig) as Hfn.
  split.
  - intros Hin. exists (spec_function f). split; [|split].
    + simpl. apply in_or_app. right.
      replace (spec_function f) with (spec_definition f)
        by (unfold spec_definition; rewrite Hfn; reflexivity).
      apply in_map, filter_In. split; [exact Hin|].
      destruct f; try discriminate; reflexivity.
    + apply visit_function_spec. exact Hfn.
    + rewrite fn_signature_spec_function. exact Hsig.
  - intros c Hc Hclass Hin.
    exists (spec_class c), (spec_function f).
    assert (Hdef : is_definition c = true)
      by (destruct c; try discriminate; reflexivity).
    assert (Hsc : spec_definition c = spec_class c)
      by (destruct c; try discriminate; reflexivity).
    split; [|split; [|split; [|split]]].
    + simpl. apply in_or_app. right. rewrite <- Hsc.
      apply in_map, filter_In. auto.
    + rewrite <- Hsc. apply visit_definition_spec. exact Hdef.
    + destruct c; try discriminate. simpl. apply in_or_app. right.
      apply in_map, filter_In. auto.
    + apply visit_function_spec. exact Hfn.
    + rewrite fn_signature_spec_function. exact Hsig.
Qed.

(** The theorem at the method [g] of class [C] of [documented_module]. *)
Lemma signature_preserved_witness :
  exists c' f',
    In c' (mod_body (spec_module documented_module)) /\
    In f' (node_body c') /\
    fn_signature f' = Some (def_sig "g" no_arguments).
Proof.
  destruct (signature_preserved documented_module
              (spec_module documented_module)
              (AsyncFunctionDef (def_sig "g" no_arguments)
                 [docstring "Doc of g." 8; Pass 9] (at_lines 7 9))
              (def_sig "g" no_arguments) eq_refl eq_refl) as [_ Hmethod].
  destruct (Hmethod
              (ClassDef (mk_class_head "C" [] [] [])
                 [OtherStmt "Assign" "x = 1" [] (at_lines 6 6);
                  AsyncFunctionDef (def_sig "g" no_arguments)
                    [docstring "Doc of g." 8; Pass 9] (at_lines 7 9)]
                 (at_lines 5 9)))
    as (c' & f' & Hc' & _ & Hf' & _ & Hsig).
  - simpl. right. right. left. reflexivity.
  - reflexivity.
  - simpl. right. left. reflexivity.
  - exists c', f'. auto.
Defined.

(** C8 as stated fails for a method of a nested class: of [class A:]
    holding [class B:] holding [def m(self, x): pass] the transformer
    leaves [class A:] with an empty body, so neither the name [m] nor its
    parameters are in the tree that is rendered. *)
Lemma nested_method_signature_lost :
  In inner_class (node_body (ClassDef (mk_class_head "A" [] [] [])
                               [inner_class] (at_lines 1 3))) /\
  In inner_method (node_body inner_class) /\
  visit_Module nested_class_module
  = Ok (mk_Module [ClassDef (mk_class_head "A" [] [] []) [] (at_lines 1 3)]
                  []) /\
  walk_Module
    (mk_Module [ClassDef (mk_class_head "A" [] [] []) [] (at_lines 1 3)] [])
  = [ClassDef (mk_class_head "A" [] [] []) [] (at_lines 1 3)] /\
  fn_signature (ClassDef (mk_class_head "A" [] [] []) [] (at_lines 1 3))
  = None.
Proof.
  split; [left; reflexivity|]. split; [left; reflexivity|].
  split; [reflexivity|]. split; reflexivity.
Qed.

(** ** The shape of an outline *)

Lemma occurs_inv n l :
  occurs n l -> In n l \/ exists p, In p l /\ occurs n (iter_child_nodes p).
Proof. intros [l' Hin|p l' Hin Hbelow]; eauto. Qed.

Lemma occurs_leaves_in n l : Forall leaf_expr l -> occurs n l -> In n l.
Proof.
  intros Hl Ho. apply occurs_inv in Ho as [Hin|(p & Hp & Hbelow)];
    [exact Hin|].
  rewrite Forall_forall in Hl. apply list_elem_of_In, Hl in Hp.
  destruct Hp as (_ & _ & Hc). rewrite Hc in Hbelow.
  destruct (occurs_nil _ Hbelow).
Qed.

Lemma children_spec_function f :
  is_function f = true ->
  iter_child_nodes (spec_function f)
  = docstring_part (node_body f) ++ [placeholder] /\
  node_body (spec_function f)
  = docstring_part (node_body f) ++ [placeholder].
Proof. destruct f; try discriminate; split; reflexivity. Qed.

Lemma children_spec_class c :
  is_class c = true ->
  iter_child_nodes (spec_class c)
  = docstring_part (node_body c)
    ++ map spec_function (List.filter is_function (node_body c)) /\
  node_body (spec_class c)
  = docstring_part (node_body c)
    ++ map spec_function (List.filter is_function (node_body c)).
Proof. destruct c; try discriminate; split; reflexivity. Qed.

Lemma definition_cases d :
  is_definition d = true ->
  (is_function d = true /\ spec_definition d = spec_function d) \/
  (is_class d = true /\ is_function d = false /\
   spec_definition d = spec_class d).
Proof. destruct d; try discriminate; intros _; auto. Qed.

(** Where a statement of the outline comes from. *)
Lemma occurs_outline tree n :
  occurs n (mod_body (spec_module tree)) ->
  In n (docstring_part (mod_body tree)) \/
  (exists d, In d (mod_body tree) /\ is_definition d = true /\
             n = spec_definition d) \/
  (exists c, In c (mod_body tree) /\ is_class c = true /\
             (In n (docstring_part (node_body c)) \/
              exists f, In f (node_body c) /\ is_function f = true /\
                        n = spec_function f)) \/
  (exists f, retained tree f /\
             In n (docstring_part (node_body f) ++ [placeholder])).
Proof.
  simpl. intros Ho. apply occurs_app in Ho as [Ho|Ho].
  { left. apply occurs_leaves_in; [apply leaf_expr_docstring_part | exact Ho]. }
  right.
  apply occurs_inv in Ho as [Hin|(p & Hp & Hbelow)].
  { left. apply in_map_iff in Hin as (d & <- & Hd).
    apply filter_In in Hd as [Hd Hdef]. eauto. }
  right.
  apply in_map_iff in Hp as (d & <- & Hd).
  apply filter_In in Hd as [Hd Hdef].
  destruct (definition_cases d Hdef) as [[Hfn Heq]|(Hcl & Hnf & Heq)];
    rewrite Heq in Hbelow.
  - right. exists d. split; [split; auto|].
    rewrite (proj1 (children_spec_function d Hfn)) in Hbelow.
    apply occurs_leaves_in; [apply leaf_expr_stripped | exact Hbelow].
  - rewrite (proj1 (children_spec_class d Hcl)) in Hbelow.
    apply occurs_app in Hbelow as [Hbelow|Hbelow].
    { left. exists d. repeat split; auto. left.
      apply occurs_leaves_in;
        [apply leaf_expr_docstring_part | exact Hbelow]. }
    apply occurs_inv in Hbelow as [Hin|(q & Hq & Hbelow)].
    { left. exists d. repeat split; auto. right.
      apply in_map_iff in Hin as (f & <- & Hf).
      apply filter_In in Hf as [Hf Hfn]. eauto. }
    right.
    apply in_map_iff in Hq as (f & <- & Hf).
    apply filter_In in Hf as [Hf Hfn].
    exists f. split; [split; [exact Hfn | right; eauto]|].
    rewrite (proj1 (children_spec_function f Hfn)) in Hbelow.
    apply occurs_leaves_in; [apply leaf_expr_stripped | exact Hbelow].
Qed.

Lemma in_stripped_body n body :
  In n (docstring_part body ++ [placeholder]) -> is_docstring n = true.
Proof.
  intros Hin. apply in_app_or in Hin as [Hin|[<-|[]]]; [|reflexivity].
  destruct (docstring_part_cases body) as [Hnil|(first & rest & _ & Hd & Hdoc)].
  - rewrite Hnil in Hin. destruct Hin.
  - rewrite Hdoc in Hin. destruct Hin as [<-|[]]. exact Hd.
Qed.

Lemma in_docstring_part n body :
  In n (docstring_part body) -> is_docstring n = true.
Proof.
  intros Hin. apply (in_stripped_body n body), in_or_app. left. exact Hin.
Qed.

Lemma spec_function_kind f :
  is_function f = true ->
  is_function (spec_function f) = true /\
  is_class (spec_function f) = false /\
  is_docstring (spec_function f) = false.
Proof. destruct f; try discriminate; repeat split. Qed.

Lemma spec_class_kind c :
  is_class c = true ->
  is_function (spec_class c) = false /\
  is_class (spec_class c) = true /\
  is_docstring (spec_class c) = false.
Proof. destruct c; try discriminate; repeat split. Qed.

(** X3. Nothing of an implementation is left anywhere in the outline:
    every statement of the transformed tree, at any depth, is a function
    definition, a class definition or a string-literal expression
    statement, and a class definition is there only as a direct child of
    the module. *)
Theorem outline_statements tree tree' n :
  visit_Module tree = Ok tree' ->
  occurs n (mod_body tree') ->
  (is_function n = true \/ is_class n = true \/ is_docstring n = true) /\
  (is_class n = true -> In n (mod_body tree')).
Proof.
  intros Hv Ho. rewrite visit_Module_pure in Hv. injection Hv as <-.
  destruct (occurs_outline tree n Ho)
    as [Hin|[(d & Hd & Hdef & ->)|[(c & Hc & Hcl & Hn)|(f & Hf & Hin)]]].
  - apply in_docstring_part in Hin. split; [auto|].
    destruct n; try discriminate.
  - split.
    + destruct (definition_cases d Hdef) as [[Hfn Heq]|(Hcl & _ & Heq)];
        rewrite Heq.
      * left. apply spec_function_kind, Hfn.
      * right. left. apply spec_class_kind, Hcl.
    + intros _. simpl. apply in_or_app. right.
      apply in_map, filter_In. auto.
  - destruct Hn as [Hin|(f & Hf & Hfn & ->)].
    + apply in_docstring_part in Hin. split; [auto|].
      destruct n; try discriminate.
    + destruct (spec_function_kind f Hfn) as (H1 & H2 & _).
      split; [auto|]. congruence.
  - apply in_stripped_body in Hin. split; [auto|].
    destruct n; try discriminate.
Qed.

(** The theorem at the placeholder of method [g] of [documented_module]. *)
Lemma outline_statements_witness :
  occurs placeholder (mod_body (spec_module documented_module)) /\
  (is_function placeholder = true \/ is_class placeholder = true \/
   is_docstring placeholder = true).
Proof.
  assert (Ho : occurs placeholder (mod_body (spec_module documented_module))).
  { apply walk_occurs. vm_compute. do 4 right. left. reflexivity. }
  split; [exact Ho|].
  apply (outline_statements documented_module
           (spec_module documented_module) placeholder eq_refl Ho).
Defined.

Lemma outline_function_origin tree g :
  occurs g (mod_body (spec_module tree)) -> is_function g = true ->
  exists f, retained tree f /\ g = spec_function f.
Proof.
  intros Ho Hg.
  destruct (occurs_outline tree g Ho)
    as [Hin|[(d & Hd & Hdef & ->)|[(c & Hc & Hcl & Hn)|(f & Hf & Hin)]]].
  - apply in_docstring_part in Hin. destruct g; discriminate.
  - destruct (definition_cases d Hdef) as [[Hfn Heq]|(Hcl & _ & Heq)];
      rewrite Heq in *.
    + exists d. split; [split; auto | reflexivity].
    + destruct (spec_class_kind d Hcl) as (Hnf & _). congruence.
  - destruct Hn as [Hin|(f & Hf & Hfn & ->)].
    + apply in_docstring_part in Hin. destruct g; discriminate.
    + exists f. split; [split; [exact Hfn | right; eauto] | reflexivity].
  - apply in_stripped_body in Hin. destruct g; discriminate.
Qed.

(** X4. The functions of the outline are the transformed retained
    functions and no others: a function found at any depth of the
    transformed tree is the transform of a function that is a direct
    child of the module or of a top-level class.  A function nested in a
    function, in a nested class or in a compound statement is in no
    outline. *)
Theorem outline_functions tree tree' g :
  visit_Module tree = Ok tree' ->
  occurs g (mod_body tree') -> is_function g = true ->
  exists f, retained tree f /\ visit f = Ok g /\ g = spec_function f.
Proof.
  intros Hv Ho Hg. rewrite visit_Module_pure in Hv. injection Hv as <-.
  destruct (outline_function_origin tree g Ho Hg) as (f & Hf & ->).
  exists f. split; [exact Hf|].
  split; [apply visit_function_spec, Hf | reflexivity].
Qed.

(** The theorem at the transformed function [f] of [documented_module]. *)
Lemma outline_functions_witness :
  exists f,
    retained documented_module f /\
    visit f
    = Ok (FunctionDef (def_sig "f" no_arguments)
            [docstring "Doc of f." 3; placeholder] (at_lines 2 4)).
Proof.
  destruct (outline_functions documented_module
              (spec_module documented_module)
              (FunctionDef (def_sig "f" no_arguments)
                 [docstring "Doc of f." 3; placeholder] (at_lines 2 4)))
    as (f & Hf & Hv & _).
  - reflexivity.
  - apply occurs_here. simpl. right. left. reflexivity.
  - reflexivity.
  - exists f. auto.
Defined.

Lemma omap_heads_docstrings l :
  Forall leaf_expr l -> omap definition_head l = [].
Proof.
  induction 1 as [|n l (Hnf & Hnc & _) _ IH]; [reflexivity|].
  destruct n; try discriminate; exact IH.
Qed.

Lemma omap_heads_definitions body :
  omap definition_head
       (map spec_definition (List.filter is_definition body))
  = omap definition_head body.
Proof.
  induction body as [|c rest IH]; [reflexivity|].
  destruct c; simpl; try exact IH; unfold omap in *; simpl;
    f_equal; exact IH.
Qed.

(** X5. The outline lists the definitions of the module as they were:
    read from top to bottom, the kinds, names, parameters, decorators,
    bases and positions of the definitions directly in the transformed
    module are those of the definitions directly in the input, in the
    same order. *)
Theorem outline_heads tree tree' :
  visit_Module tree = Ok tree' ->
  omap definition_head (mod_body tree')
  = omap definition_head (mod_body tree).
Proof.
  intros Hv. rewrite visit_Module_pure in Hv. injection Hv as <-. simpl.
  rewrite omap_app, omap_heads_docstrings
    by apply leaf_expr_docstring_part.
  apply omap_heads_definitions.
Qed.

Lemma outline_heads_witness :
  omap definition_head (mod_body (spec_module documented_module_with_more))
  = [(FunctionHead (def_sig "f" no_arguments), at_lines 2 4);
     (ClassHead (mk_class_head "C" [] [] []), at_lines 5 9)].
Proof.
  rewrite (outline_heads documented_module_with_more
             (spec_module documented_module_with_more) eq_refl).
  reflexivity.
Defined.

(** ** Docstrings after a pass *)

Lemma has_docstring_spec_function f :
  is_function f = true -> has_docstring (spec_function f) = true.
Proof.
  intros Hf. unfold has_docstring.
  rewrite (proj2 (children_spec_function f Hf)).
  destruct (docstring_part_cases (node_body f))
    as [->|(first & rest & _ & Hd & ->)]; simpl; [reflexivity|].
  rewrite Hd. reflexivity.
Qed.

Lemma docstring_part_spec_function f :
  is_function f = true ->
  docstring_part (node_body (spec_function f))
  = if has_docstring f then docstring_part (node_body f) else [placeholder].
Proof.
  intros Hf. unfold has_docstring.
  rewrite (proj2 (children_spec_function f Hf)).
  destruct (docstring_part_cases (node_body f))
    as [->|(first & rest & _ & Hd & ->)]; simpl; [reflexivity|].
  rewrite Hd. reflexivity.
Qed.

Lemma docstring_part_spec_class c :
  is_class c = true ->
  docstring_part (node_body (spec_class c)) = docstring_part (node_body c) /\
  List.filter is_function (node_body (spec_class c))
  = map spec_function (List.filter is_function (node_body c)).
Proof.
  intros Hc. rewrite (proj2 (children_spec_class c Hc)).
  apply (kept_children_again is_function spec_function (node_body c)).
  - intros d Hd. apply is_docstring_not_definition, Hd.
  - intros f Hf. destruct (spec_function_kind f Hf) as (H1 & _ & H3). auto.
Qed.

Lemma docstring_part_spec_module tree :
  docstring_part (mod_body (spec_module tree))
  = docstring_part (mod_body tree) /\
  List.filter is_definition (mod_body (spec_module tree))
  = map spec_definition (List.filter is_definition (mod_body tree)).
Proof.
  apply (kept_children_again is_definition spec_definition (mod_body tree)).
  - intros d Hd. apply is_docstring_not_definition, Hd.
  - intros d Hd. unfold spec_definition.
    destruct d; try discriminate; split; reflexivity.
Qed.

(** X13. Docstrings after a pass.  The transformed module and a
    transformed class have a docstring exactly when the original has, and
    it is the same statement.  A transformed function always starts with a
    string literal: its own docstring when it has one, the placeholder
    otherwise. *)
Theorem docstrings_after_pass :
  (forall tree tree',
     visit_Module tree = Ok tree' ->
     docstring_part (mod_body tree') = docstring_part (mod_body tree)) /\
  (forall c c',
     is_class c = true -> visit c = Ok c' ->
     docstring_part (node_body c') = docstring_part (node_body c)) /\
  (forall f f',
     is_function f = true -> visit f = Ok f' ->
     has_docstring f' = true /\
     docstring_part (node_body f')
     = if has_docstring f then docstring_part (node_body f)
       else [placeholder]).
Proof.
  split; [|split].
  - intros tree tree' Hv. rewrite visit_Module_pure in Hv.
    injection Hv as <-. apply docstring_part_spec_module.
  - intros c c' Hc Hv.
    assert (Hdef : is_definition c = true)
      by (destruct c; try discriminate; reflexivity).
    rewrite (visit_definition_spec c Hdef) in Hv. injection Hv as <-.
    destruct (definition_cases c Hdef) as [[Hfn _]|(_ & _ & ->)].
    + destruct c; discriminate.
    + apply docstring_part_spec_class, Hc.
  - intros f f' Hf Hv.
    rewrite (visit_function_spec f Hf) in Hv. injection Hv as <-.
    split; [apply has_docstring_spec_function, Hf|].
    apply docstring_part_spec_function, Hf.
Qed.

(** The theorem at [one_liner]: its function has no docstring and the
    transformed one starts with the placeholder. *)
Lemma docstrings_after_pass_witness :
  docstring_part (mod_body (spec_module documented_module))
  = [docstring "Module doc." 1] /\
  docstring_part (node_body (spec_function one_liner_fn)) = [placeholder].
Proof.
  destruct docstrings_after_pass as (Hmod & _ & Hfn). split.
  - rewrite (Hmod documented_module (spec_module documented_module) eq_refl).
    reflexivity.
  - destruct (Hfn one_liner_fn (spec_function one_liner_fn) eq_refl eq_refl)
      as [_ H].
    rewrite H. reflexivity.
Defined.

(** ** Further passes *)

Lemma map_eq_in_inv {A B} (f h : A -> B) l :
  map f l = map h l -> forall x, In x l -> f x = h x.
Proof.
  induction l as [|y l IH]; simpl; intros Heq x Hin; [destruct Hin|].
  injection Heq as Hy Hl. destruct Hin as [<-|Hin]; auto.
Qed.

Lemma mod_body_spec_module tree :
  mod_body (spec_module tree)
  = docstring_part (mod_body tree)
    ++ map spec_definition (List.filter is_definition (mod_body tree)).
Proof. reflexivity. Qed.

Lemma spec_module_again tree :
  (forall f, retained tree f -> has_docstring f = true) ->
  spec_module (spec_module tree) = spec_module tree.
Proof.
  intros Hdocs. destruct (docstring_part_spec_module tree) as [Hd Hf].
  unfold spec_module at 1. rewrite Hd, Hf, map_map.
  unfold spec_module. simpl. do 2 f_equal.
  apply map_ext_in. intros d Hin. apply filter_In in Hin as [Hin Hdef].
  eapply spec_definition_again; eauto.
Qed.

Lemma retained_occurs tree f :
  retained tree f -> occurs f (mod_body tree).
Proof.
  intros [_ [Hin|(c & Hc & _ & Hin)]].
  - apply occurs_here. exact Hin.
  - eapply occurs_below; [exact Hc|].
    apply occurs_here, node_body_children. exact Hin.
Qed.

Lemma retained_spec_module tree g :
  retained (spec_module tree) g ->
  exists f, retained tree f /\ g = spec_function f.
Proof.
  intros Hg. apply outline_function_origin.
  - apply retained_occurs. exact Hg.
  - apply Hg.
Qed.

Lemma spec_function_fixed f :
  is_function f = true ->
  spec_function (spec_function f) = spec_function f ->
  has_docstring f = true.
Proof.
  intros Hf Heq. apply (f_equal node_body) in Heq.
  destruct (spec_function_kind f Hf) as (Hf' & _).
  rewrite (proj2 (children_spec_function _ Hf')) in Heq.
  rewrite (docstring_part_spec_function f Hf) in Heq.
  rewrite (proj2 (children_spec_function f Hf)) in Heq.
  destruct (has_docstring f) eqn:Hd; [reflexivity|].
  unfold has_docstring in Hd.
  destruct (docstring_part (node_body f)); discriminate.
Qed.

Lemma spec_class_fixed c f :
  is_class c = true ->
  spec_class (spec_class c) = spec_class c ->
  In f (node_body c) -> is_function f = true ->
  has_docstring f = true.
Proof.
  intros Hc Heq Hin Hf. apply (f_equal node_body) in Heq.
  destruct (spec_class_kind c Hc) as (_ & Hc' & _).
  destruct (docstring_part_spec_class c Hc) as [Hd Hfs].
  rewrite (proj2 (children_spec_class _ Hc')), Hd, Hfs in Heq.
  rewrite (proj2 (children_spec_class c Hc)), map_map in Heq.
  apply app_inv_head in Heq.
  apply spec_function_fixed; [exact Hf|].
  apply (map_eq_in_inv _ _ _ Heq). apply filter_In. auto.
Qed.

Lemma spec_module_fixed tree f :
  spec_module (spec_module tree) = spec_module tree ->
  retained tree f -> has_docstring f = true.
Proof.
  intros Heq [Hf Hwhere]. apply (f_equal mod_body) in Heq.
  destruct (docstring_part_spec_module tree) as [Hd Hfs].
  rewrite (mod_body_spec_module (spec_module tree)), Hd, Hfs in Heq.
  rewrite (mod_body_spec_module tree), map_map in Heq.
  apply app_inv_head in Heq.
  pose proof (map_eq_in_inv _ _ _ Heq) as Hall.
  destruct Hwhere as [Hin|(c & Hc & Hcl & Hin)].
  - apply spec_function_fixed; [exact Hf|].
    assert (Hdef : is_definition f = true)
      by (destruct f; try discriminate; reflexivity).
    specialize (Hall f (proj2 (filter_In _ _ _) (conj Hin Hdef))).
    cbv beta in Hall.
    unfold spec_definition in Hall. rewrite Hf in Hall.
    rewrite (proj1 (spec_function_kind f Hf)) in Hall. exact Hall.
  - apply (spec_class_fixed c f Hcl); auto.
    assert (Hdef : is_definition c = true)
      by (destruct c; try discriminate; reflexivity).
    specialize (Hall c (proj2 (filter_In _ _ _) (conj Hc Hdef))).
    cbv beta in Hall.
    destruct (definition_cases c Hdef) as [[Hfn _]|(_ & Hnf & Hsc)];
      [destruct c; discriminate|].
    rewrite Hsc in Hall. unfold spec_definition in Hall.
    rewrite (proj1 (spec_class_kind c Hcl)) in Hall. exact Hall.
Qed.

(** X1. The transformer settles at its second pass: applied to the tree
    its second pass returned, it returns that tree unchanged, whatever
    the input. *)
Theorem Outline_settles tree once twice :
  visit_Module tree = Ok once ->
  visit_Module once = Ok twice ->
  visit_Module twice = Ok twice.
Proof.
  intros H1 H2. rewrite visit_Module_pure in H1. injection H1 as <-.
  rewrite visit_Module_pure in H2. injection H2 as <-.
  rewrite visit_Module_pure. f_equal.
  apply spec_module_again. intros g Hg.
  destruct (retained_spec_module tree g Hg) as (f & Hf & ->).
  apply has_docstring_spec_function, Hf.
Qed.

(** The theorem at [one_liner], whose second pass differs from its
    first. *)
Lemma Outline_settles_witness :
  visit_Module
    (mk_Module [with_body one_liner_fn [placeholder; placeholder]] [])
  = Ok (mk_Module [with_body one_liner_fn [placeholder; placeholder]] []).
Proof.
  apply (Outline_settles one_liner
           (mk_Module [with_body one_liner_fn [placeholder]] []));
    reflexivity.
Defined.

(** X2. A second pass returns what the first returned exactly when every
    function the transformer retains starts with a docstring: one
    retained function without a docstring is enough for the second pass
    to differ. *)
Theorem Outline_second_pass tree once :
  visit_Module tree = Ok once ->
  (visit_Module once = Ok once
   <-> forall f, retained tree f -> has_docstring f = true).
Proof.
  intros Hv. rewrite visit_Module_pure in Hv. injection Hv as <-.
  rewrite visit_Module_pure. split.
  - intros Heq f Hf.
    assert (Hsame : spec_module (spec_module tree) = spec_module tree)
      by congruence.
    exact (spec_module_fixed tree f Hsame Hf).
  - intros Hdocs. f_equal. apply spec_module_again, Hdocs.
Qed.

(** The theorem at [sample_tree], whose function has no docstring. *)
Lemma Outline_second_pass_witness :
  ~ (forall f, retained sample_tree f -> has_docstring f = true) /\
  visit_Module (spec_module sample_tree) <> Ok (spec_module sample_tree).
Proof.
  assert (Hno : ~ (forall f, retained sample_tree f ->
                             has_docstring f = true)).
  { intros Hall. specialize (Hall sample_fn).
    assert (has_docstring sample_fn = true); [|discriminate].
    apply Hall. split; [reflexivity | left; left; reflexivity]. }
  split; [exact Hno|].
  intros Hsame. apply Hno.
  apply (Outline_second_pass sample_tree (spec_module sample_tree) eq_refl).
  exact Hsame.
Defined.

(** ** When the collector raises *)

Lemma body_range_cases n :
  (~ startless n /\ body_range n = Ok (spec_body_range n)) \/
  (startless n /\ body_range n = Raise AttributeError).
Proof.
  unfold startless, body_range, spec_body_range, spec_body_start, get_lineno.
  destruct (is_function n); [|left; split; [intros [? _]; discriminate|]];
    [|reflexivity].
  destruct (end_lineno (stmt_pos n)) as [e|];
    [|left; split; [intros (_ & ? & _); congruence | reflexivity]].
  destruct (node_body n) as [|first rest]; simpl.
  - destruct (lineno (stmt_pos n)) as [l|]; simpl.
    + left. split; [intros (_ & _ & ?); discriminate | reflexivity].
    + right. repeat split. discriminate.
  - destruct (lineno (stmt_pos first)) as [l|]; simpl.
    + left. split; [intros (_ & _ & ?); discriminate | reflexivity].
    + right. repeat split. discriminate.
Qed.

Lemma collect_loop_ok nodes ranges :
  Forall (fun n => ~ startless n) nodes ->
  collect_loop nodes ranges = Ok (ranges ++ omap spec_body_range nodes).
Proof.
  intros H. apply collect_loop_spec.
  eapply Forall_impl; [exact H|]. intros n Hn.
  destruct (body_range_cases n) as [[_ Hok]|[Hs _]];
    [exact Hok | destruct (Hn Hs)].
Qed.

Lemma collect_loop_raises nodes ranges :
  Exists startless nodes ->
  collect_loop nodes ranges = Raise AttributeError.
Proof.
  intros H. revert ranges.
  induction nodes as [|n rest IH]; intros ranges; [inversion H|].
  simpl. destruct (body_range_cases n) as [[Hn ->]|[_ ->]]; [|reflexivity].
  assert (Hrest : Exists startless rest).
  { apply Exists_cons in H as [H|H]; [destruct (Hn H) | exact H]. }
  simpl. destruct (spec_body_range n); apply IH; exact Hrest.
Qed.

Lemma collect_body_ranges_ok tree :
  (forall n, occurs n (mod_body tree) -> ~ startless n) ->
  collect_body_ranges tree = Ok (omap spec_body_range (walk_Module tree)).
Proof.
  intros H. unfold collect_body_ranges. rewrite collect_loop_ok; [reflexivity|].
  apply Forall_forall. intros n Hn. apply H, walk_occurs, list_elem_of_In, Hn.
Qed.

Lemma collect_body_ranges_raises tree n :
  occurs n (mod_body tree) -> startless n ->
  collect_body_ranges tree = Raise AttributeError.
Proof.
  intros Hn Hs. unfold collect_body_ranges. apply collect_loop_raises.
  apply Exists_exists. exists n. split; [|exact Hs].
  apply list_elem_of_In, walk_occurs, Hn.
Qed.

Lemma omap_none {A B} (f : A -> option B) l :
  (forall x, In x l -> f x = None) -> omap f l = [].
Proof.
  induction l as [|x l IH]; intros H; [reflexivity|].
  unfold omap in *. simpl. rewrite (H x) by (left; reflexivity).
  apply IH. intros y Hy. apply H. right. exact Hy.
Qed.

Lemma in_collected_ranges tree r :
  In r (omap spec_body_range (walk_Module tree))
  <-> exists n, occurs n (mod_body tree) /\ spec_body_range n = Some r.
Proof.
  rewrite <- list_elem_of_In, list_elem_of_omap. split.
  - intros (n & Hn & Hr). exists n. split; [|exact Hr].
    apply walk_occurs, list_elem_of_In, Hn.
  - intros (n & Hn & Hr). exists n. split; [|exact Hr].
    apply list_elem_of_In, walk_occurs, Hn.
Qed.

(** X7. When the collector returns.  As long as each function node whose
    end line is known has a line number where its body starts, the
    collector returns, whatever positions the other nodes have or lack:
    its list holds one range for each of those function nodes, a range
    being in it exactly when it is the range of a function node of the
    tree with a known end line.  Nothing is said of the order of the
    list.  A tree none of whose functions has an end line gives no range
    and no error. *)
Theorem collect_body_ranges_returns tree :
  ((forall n, occurs n (mod_body tree) -> ~ startless n) ->
   exists ranges,
     collect_body_ranges tree = Ok ranges /\
     Permutation ranges (omap spec_body_range (walk_Module tree)) /\
     forall r,
       In r ranges
       <-> exists n, occurs n (mod_body tree) /\
                     spec_body_range n = Some r) /\
  ((forall n, occurs n (mod_body tree) -> is_function n = true ->
              end_lineno (stmt_pos n) = None) ->
   collect_body_ranges tree = Ok []).
Proof.
  split.
  - intros Hloc. exists (omap spec_body_range (walk_Module tree)).
    split; [apply collect_body_ranges_ok, Hloc|].
    split; [reflexivity | apply in_collected_ranges].
  - intros Hnoend. rewrite collect_body_ranges_ok.
    + f_equal. apply omap_none. intros n Hn.
      apply walk_occurs in Hn. unfold spec_body_range.
      destruct (is_function n) eqn:Hfn; [|reflexivity].
      rewrite (Hnoend n Hn Hfn). reflexivity.
    + intros n Hn (Hfn & Hend & _). apply Hend, Hnoend; auto.
Qed.

Lemma collect_body_ranges_returns_witness :
  collect_body_ranges sample_tree = Ok [(3, 5)] /\
  collect_body_ranges legacy_module = Ok [].
Proof.
  split.
  - destruct (collect_body_ranges_returns sample_tree) as (Hok & _).
    destruct Hok as (ranges & Hc & _ & _); [|reflexivity].
    intros n Hn (_ & _ & Hstart). apply walk_occurs in Hn. vm_compute in Hn.
    destruct Hn as [<-|[<-|[<-|[]]]]; discriminate.
  - destruct (collect_body_ranges_returns legacy_module) as (_ & Hnone).
    apply Hnone. intros n Hn _. apply walk_occurs in Hn. vm_compute in Hn.
    destruct Hn as [<-|[<-|[]]]; reflexivity.
Defined.

Lemma retained_in_outline tree f :
  retained tree f -> occurs (spec_function f) (mod_body (spec_module tree)).
Proof.
  intros [Hf [Hin|(c & Hc & Hcl & Hin)]]; rewrite mod_body_spec_module.
  - apply occurs_here, in_or_app. right.
    replace (spec_function f) with (spec_definition f)
      by (unfold spec_definition; rewrite Hf; reflexivity).
    apply in_map, filter_In. split; [exact Hin|].
    destruct f; try discriminate; reflexivity.
  - assert (Hdef : is_definition c = true)
      by (destruct c; try discriminate; reflexivity).
    apply occurs_below with (p := spec_class c).
    + apply in_or_app. right.
      replace (spec_class c) with (spec_definition c)
        by (destruct c; try discriminate; reflexivity).
      apply in_map, filter_In. auto.
    + rewrite (proj1 (children_spec_class c Hcl)).
      apply occurs_here, in_or_app. right. apply in_map, filter_In. auto.
Qed.

(** X6. The ranges have to be collected before the tree is transformed.
    On the transformed tree, as the transformer leaves it, the collector
    raises [AttributeError] as soon as a retained function with a known
    end line has no docstring: its body then starts with the placeholder,
    which has no line number. *)
Theorem collect_after_Outline_raises tree tree' f :
  visit_Module tree = Ok tree' ->
  retained tree f ->
  has_docstring f = false ->
  end_lineno (stmt_pos f) <> None ->
  collect_body_ranges tree' = Raise AttributeError.
Proof.
  intros Hv Hf Hdoc Hend. rewrite visit_Module_pure in Hv.
  injection Hv as <-.
  apply (collect_body_ranges_raises _ (spec_function f));
    [apply retained_in_outline, Hf|].
  destruct Hf as [Hfn _]. unfold startless, spec_body_start.
  rewrite (proj2 (children_spec_function f Hfn)).
  unfold has_docstring in Hdoc.
  destruct (docstring_part (node_body f)); [|discriminate].
  split; [apply spec_function_kind, Hfn|].
  split; [|reflexivity].
  destruct f; try discriminate; exact Hend.
Qed.

(** The theorem at [sample_tree]: the ranges are there before the pass
    and cannot be had after it. *)
Lemma collect_after_Outline_raises_witness :
  collect_body_ranges sample_tree = Ok [(3, 5)] /\
  collect_body_ranges (spec_module sample_tree) = Raise AttributeError.
Proof.
  split; [reflexivity|].
  apply (collect_after_Outline_raises sample_tree (spec_module sample_tree)
           sample_fn).
  - reflexivity.
  - split; [reflexivity | left; left; reflexivity].
  - reflexivity.
  - discriminate.
Defined.

(** ** Comments and the lines the ranges cover *)

Lemma get_toplevel_comments_eq generate_tokens src body_ranges :
  get_toplevel_comments generate_tokens src body_ranges
  = (tokens ← generate_tokens src;
     Ok (map (fun tok => rstrip_newline (tok_line tok))
             (List.filter (kept_comment body_ranges) tokens))).
Proof.
  unfold get_toplevel_comments.
  destruct (generate_tokens src) as [tokens|e]; simpl; [|reflexivity].
  rewrite scan_tokens_spec. reflexivity.
Qed.

Lemma kept_comment_covered body_ranges tok :
  kept_comment body_ranges tok
  = is_COMMENT (tok_type tok) && (snd (tok_start tok) =? 0)
    && negb (covered body_ranges (fst (tok_start tok))).
Proof. reflexivity. Qed.

Lemma covered_app rs1 rs2 line :
  covered (rs1 ++ rs2) line = covered rs1 line || covered rs2 line.
Proof. apply existsb_app. Qed.

Lemma covered_Permutation rs1 rs2 line :
  Permutation rs1 rs2 -> covered rs1 line = covered rs2 line.
Proof.
  induction 1 as [|r l l' _ IH|r r' l|l l' l'' _ IH1 _ IH2]; simpl.
  - reflexivity.
  - rewrite IH. reflexivity.
  - destruct (in_range line r), (in_range line r'); reflexivity.
  - congruence.
Qed.

Lemma filter_ext_all {A} (p q : A -> bool) l :
  (forall x, p x = q x) -> List.filter p l = List.filter q l.
Proof. intros H. apply List.filter_ext. exact H. Qed.

Lemma same_cover_same_comments generate_tokens src rs1 rs2 :
  (forall line, covered rs1 line = covered rs2 line) ->
  get_toplevel_comments generate_tokens src rs1
  = get_toplevel_comments generate_tokens src rs2.
Proof.
  intros Hcov. rewrite !get_toplevel_comments_eq.
  destruct (generate_tokens src) as [tokens|e]; simpl; [|reflexivity].
  do 2 f_equal. apply filter_ext_all. intros tok.
  rewrite !kept_comment_covered, Hcov. reflexivity.
Qed.

(** X8. The kept comments depend on the body ranges only through the
    lines they cover: two lists of ranges covering the same lines give
    the same result.  So the order of the ranges and their repetitions
    are of no account, and a range whose end is before its start counts
    for nothing. *)
Theorem get_toplevel_comments_cover generate_tokens src rs1 rs2 :
  ((forall line, covered rs1 line = covered rs2 line) ->
   get_toplevel_comments generate_tokens src rs1
   = get_toplevel_comments generate_tokens src rs2) /\
  (Permutation rs1 rs2 ->
   get_toplevel_comments generate_tokens src rs1
   = get_toplevel_comments generate_tokens src rs2) /\
  get_toplevel_comments generate_tokens src (rs1 ++ rs1)
  = get_toplevel_comments generate_tokens src rs1 /\
  (forall s e,
     e < s ->
     get_toplevel_comments generate_tokens src ((s, e) :: rs1)
     = get_toplevel_comments generate_tokens src rs1).
Proof.
  split; [apply same_cover_same_comments|]. split; [|split].
  - intros Hperm. apply same_cover_same_comments. intros line.
    apply covered_Permutation, Hperm.
  - apply same_cover_same_comments. intros line.
    rewrite covered_app. apply orb_diag.
  - intros s e Hlt. apply same_cover_same_comments. intros line.
    unfold covered. simpl.
    replace (in_range line (s, e)) with false; [reflexivity|].
    symmetry. unfold in_range. simpl. lia.
Qed.

Lemma get_toplevel_comments_cover_witness :
  get_toplevel_comments sample_generate_tokens sample_source
    [(3, 5); (9, 2)]
  = get_toplevel_comments sample_generate_tokens sample_source
      [(4, 5); (3, 4)] /\
  get_toplevel_comments sample_generate_tokens sample_source
    [(9, 2); (3, 5)]
  = get_toplevel_comments sample_generate_tokens sample_source [(3, 5)].
Proof.
  split.
  - destruct (get_toplevel_comments_cover sample_generate_tokens
                sample_source [(3, 5); (9, 2)] [(4, 5); (3, 4)])
      as (Hcover & _).
    apply Hcover. intros line. unfold covered, in_range. simpl. lia.
  - destruct (get_toplevel_comments_cover sample_generate_tokens
                sample_source [(3, 5)] [(3, 5)]) as (_ & _ & _ & Hempty).
    apply Hempty. lia.
Defined.

Lemma filter_sublist {A} (p q : A -> bool) l :
  (forall x, p x = true -> q x = true) ->
  sublist (List.filter p l) (List.filter q l).
Proof.
  intros H. induction l as [|x l IH]; simpl; [constructor|].
  destruct (p x) eqn:Hp.
  - rewrite (H x Hp). constructor. exact IH.
  - destruct (q x); [constructor|]; exact IH.
Qed.

Lemma map_sublist {A B} (f : A -> B) l1 l2 :
  sublist l1 l2 -> sublist (map f l1) (map f l2).
Proof. induction 1; simpl; constructor; assumption. Qed.

(** X9. More body ranges never bring a comment in: the comments kept
    with further ranges are, in order, among those kept without them. *)
Theorem more_ranges_fewer_comments generate_tokens src rs extra kept :
  get_toplevel_comments generate_tokens src rs = Ok kept ->
  exists kept',
    get_toplevel_comments generate_tokens src (rs ++ extra) = Ok kept' /\
    sublist kept' kept.
Proof.
  rewrite !get_toplevel_comments_eq.
  destruct (generate_tokens src) as [tokens|e]; simpl; [|discriminate].
  intros H. injection H as <-. eexists. split; [reflexivity|].
  apply map_sublist, filter_sublist. intros tok.
  rewrite !kept_comment_covered, covered_app, !andb_true_iff,
    !negb_true_iff, orb_false_iff.
  tauto.
Qed.

Lemma more_ranges_fewer_comments_witness :
  get_toplevel_comments sample_generate_tokens sample_source [(3, 5)]
  = Ok ["# note"; "# tail"] /\
  get_toplevel_comments sample_generate_tokens sample_source
    ([(3, 5)] ++ [(6, 6)])
  = Ok ["# note"].
Proof.
  split; [reflexivity|].
  destruct (more_ranges_fewer_comments sample_generate_tokens sample_source
              [(3, 5)] [(6, 6)] ["# note"; "# tail"] eq_refl)
    as (kept' & Hk & _).
  rewrite Hk. vm_compute in Hk. injection Hk as <-. reflexivity.
Defined.

(** X10. What a kept line is.  Every kept line is the line of a comment
    token at column 0 with its trailing newlines taken off, it ends in no
    newline, and there are no more kept lines than comment tokens. *)
Theorem kept_lines_trimmed generate_tokens src body_ranges kept :
  get_toplevel_comments generate_tokens src body_ranges = Ok kept ->
  exists tokens,
    generate_tokens src = Ok tokens /\
    (length kept
     <= length (List.filter (fun tok => is_COMMENT (tok_type tok)) tokens))%nat
    /\
    forall line, In line kept ->
      ends_with_newline line = false /\
      exists tok k,
        In tok tokens /\ tok_type tok = COMMENT /\
        snd (tok_start tok) = 0 /\
        tok_line tok = String.append line (newlines k).
Proof.
  rewrite get_toplevel_comments_eq.
  destruct (generate_tokens src) as [tokens|e]; simpl; [|discriminate].
  intros H. injection H as <-. exists tokens. split; [reflexivity|]. split.
  - rewrite length_map.
    apply sublist_length, filter_sublist. intros tok.
    unfold kept_comment. rewrite !andb_true_iff. tauto.
  - intros line Hin. apply in_map_iff in Hin as (tok & <- & Htok).
    apply filter_In in Htok as [Htok Hkept].
    apply kept_comment_iff in Hkept as (Htype & Hcol & _).
    destruct (rstrip_newline_spec (tok_line tok)) as [Hend (k & Hk)].
    split; [exact Hend|]. exists tok, k. auto.
Qed.

Lemma kept_lines_trimmed_witness :
  exists tokens,
    sample_generate_tokens sample_source = Ok tokens /\
    (2 <= length (List.filter (fun tok => is_COMMENT (tok_type tok))
                              tokens))%nat.
Proof.
  destruct (kept_lines_trimmed sample_generate_tokens sample_source
              [(3, 5)] ["# note"; "# tail"] eq_refl)
    as (tokens & Htok & Hlen & _).
  exists tokens. split; [exact Htok | exact Hlen].
Defined.

(** ** The text the driver returns *)

Lemma collect_loop_ok_inv nodes ranges out :
  collect_loop nodes ranges = Ok out ->
  out = ranges ++ omap spec_body_range nodes.
Proof.
  revert ranges. induction nodes as [|n rest IH]; intros ranges H.
  - injection H as <-. rewrite app_nil_r. reflexivity.
  - simpl in H. destruct (body_range_cases n) as [[_ Hok]|[_ Hraise]];
      rewrite ?Hok, ?Hraise in H; simpl in H; [|discriminate].
    unfold omap in *. simpl.
    destruct (spec_body_range n) as [r|]; apply IH in H; subst out;
      [rewrite <- app_assoc|]; reflexivity.
Qed.

(** X11. The text [summarise] returns.  Whenever [summarise] returns a
    text for a file that was read, parsed and tokenized, the ranges were
    collected, a range being among them exactly when it is the range of a
    function node of the tree, at any depth, with a known end line, and
    the text is: the lines of the comment tokens at column 0 on a line in
    none of those ranges, a blank line, then the rendering of the outline
    of the tree; the rendering alone when no comment is kept. *)
Theorem summarise_text
    read_text parse generate_tokens fix_missing_locations unparse
    path source tree tokens out :
  read_text path = Ok source ->
  parse source = Ok tree ->
  generate_tokens source = Ok tokens ->
  summarise read_text parse generate_tokens fix_missing_locations unparse
            path = Ok out ->
  exists ranges,
    collect_body_ranges tree = Ok ranges /\
    (forall r,
       In r ranges
       <-> exists n, occurs n (mod_body tree) /\
                     spec_body_range n = Some r) /\
    (forall tok,
       kept_comment ranges tok = true
       <-> tok_type tok = COMMENT /\ snd (tok_start tok) = 0 /\
           forall n s e,
             occurs n (mod_body tree) ->
             spec_body_range n = Some (s, e) ->
             ~ (s <= fst (tok_start tok) <= e)) /\
    out = spec_output
            (map (fun tok => rstrip_newline (tok_line tok))
                 (List.filter (kept_comment ranges) tokens))
            (unparse (fix_missing_locations (spec_module tree))).
Proof.
  intros Hread Hparse Htok H. unfold summarise, summarise_source in H.
  rewrite Hread in H. simpl in H. rewrite Hparse in H. simpl in H.
  destruct (collect_body_ranges tree) as [ranges|e] eqn:Hc; simpl in H;
    [|discriminate].
  rewrite visit_Module_pure in H. simpl in H.
  rewrite get_toplevel_comments_eq, Htok in H. simpl in H.
  unfold collect_body_ranges in Hc. apply collect_loop_ok_inv in Hc.
  simpl in Hc. subst ranges.
  exists (omap spec_body_range (walk_Module tree)).
  split; [reflexivity|]. split; [apply in_collected_ranges|]. split.
  - intros tok. rewrite kept_comment_iff. split.
    + intros (Ht & Hcol & Hout). repeat split; auto.
      intros n s e Hn Hr. apply Hout, in_collected_ranges. eauto.
    + intros (Ht & Hcol & Hout). repeat split; auto.
      intros s e Hin. apply in_collected_ranges in Hin as (n & Hn & Hr).
      eauto.
  - destruct (map _ _) in H |- *; injection H as <-; reflexivity.
Qed.

Lemma summarise_text_witness :
  exists ranges,
    collect_body_ranges sample_tree = Ok ranges /\
    String.concat nl ["# note"; "# tail"; ""; "<rendered code>"]
    = spec_output
        (map (fun tok => rstrip_newline (tok_line tok))
             (List.filter (kept_comment ranges) sample_tokens))
        "<rendered code>".
Proof.
  destruct (summarise_text sample_read_text sample_parse
              sample_generate_tokens sample_fix_missing_locations
              sample_unparse "module.py" sample_source sample_tree
              sample_tokens
              (String.concat nl ["# note"; "# tail"; ""; "<rendered code>"])
              eq_refl eq_refl eq_refl eq_refl)
    as (ranges & Hc & _ & _ & Hout).
  exists ranges. split; [exact Hc | exact Hout].
Defined.
